(** * temp-email-guard: a shallow embedding of the domain index, the
      classifier and the loader, with the properties of their specification

    The development follows the three source modules:
    - [src/utils/trie.ts]   : [DomainTrie] (label-reversed prefix tree);
    - [src/data/loader.ts]  : [Loader] (merge, validation and caching of the
                              supplied domain lists);
    - [src/index.ts]        : [Guard] (module state, recency cache,
                              [isTempEmail], [validateEmail], [initialize]).

    Strings are Stdlib strings; a character stands for a code point from 0
    to 255 (ASCII and Latin-1), on which lowercasing, blanks and the order
    of [sort] are those of JavaScript.  JavaScript [Map]s whose iteration order is
    observed (the recency cache) are association lists in insertion order;
    the children of a trie node, whose order is never observed, are a
    [gmap]; the exact-match [Set] is a [gset]. *)

From Stdlib Require Import String Ascii List ZArith Lia Bool Sorted.
From stdpp Require Import gmap strings list.

Set Warnings "-register-all".
Set Default Proof Using "Type".

(* ===================================================================== *)
(** * Part I: the program *)
(* ===================================================================== *)

(** ** JavaScript string primitives used by the sources *)

Module JS.

(** The characters [toLowerCase] changes: [A]-[Z], and the accented capitals
    of Latin-1 (code points 192 to 222, the multiplication sign 215
    excepted); each moves up by 32. *)
Definition isUpper (c : ascii) : bool :=
  let n := nat_of_ascii c in
  ((65 <=? n) && (n <=? 90))
  || ((192 <=? n) && (n <=? 222) && negb (n =? 215)).

Definition toLowerChar (c : ascii) : ascii :=
  if isUpper c then ascii_of_nat (nat_of_ascii c + 32) else c.

(** [s.toLowerCase()] *)
Fixpoint toLowerCase (s : string) : string :=
  match s with
  | EmptyString => EmptyString
  | String c s' => String (toLowerChar c) (toLowerCase s')
  end.

(** The class [\s] of regular expressions, which is also what [trim]
    strips: tab, line feed, vertical tab, form feed, carriage return,
    space, no-break space. *)
Definition isSpace (c : ascii) : bool :=
  let n := nat_of_ascii c in
  ((9 <=? n) && (n <=? 13)) || (n =? 32) || (n =? 160).

Fixpoint trimStart (s : string) : string :=
  match s with
  | EmptyString => EmptyString
  | String c s' => if isSpace c then trimStart s' else s
  end.

Fixpoint trimEnd (s : string) : string :=
  match s with
  | EmptyString => EmptyString
  | String c s' =>
      match trimEnd s' with
      | EmptyString => if isSpace c then EmptyString else String c EmptyString
      | r => String c r
      end
  end.

(** [s.trim()] *)
Definition trim (s : string) : string := trimStart (trimEnd s).

(** [s.split(sep)] for a one-character separator; the result is never
    empty: [''.split('.')] is [['']]. *)
Fixpoint split (sep : ascii) (s : string) : list string :=
  match s with
  | EmptyString => [EmptyString]
  | String c s' =>
      if Ascii.eqb c sep then EmptyString :: split sep s'
      else match split sep s' with
           | [] => [String c EmptyString]
           | w :: ws => String c w :: ws
           end
  end.

(** [s.indexOf(c)], with [-1] for "not found". *)
Fixpoint indexOf (c : ascii) (s : string) : Z :=
  match s with
  | EmptyString => (-1)%Z
  | String a s' =>
      if Ascii.eqb a c then 0%Z
      else let i := indexOf c s' in
           if (i =? -1)%Z then (-1)%Z else (i + 1)%Z
  end.

(** [s.slice(n)] for [0 <= n]. *)
Fixpoint sliceFrom (n : nat) (s : string) : string :=
  match n, s with
  | O, _ => s
  | S n', String _ s' => sliceFrom n' s'
  | S _, EmptyString => EmptyString
  end.

(** [s.startsWith(p)] *)
Definition startsWith (s p : string) : bool := String.prefix p s.

(** [s.includes(p)] *)
Fixpoint includes (s p : string) : bool :=
  String.prefix p s ||
  match s with
  | EmptyString => false
  | String _ s' => includes s' p
  end.

(** [s.endsWith(p)] *)
Fixpoint endsWith (s p : string) : bool :=
  String.eqb s p ||
  match s with
  | EmptyString => false
  | String _ s' => endsWith s' p
  end.

(** Truthiness of a string: [Boolean(s)], [!s] is its negation. *)
Definition truthy (s : string) : bool :=
  match s with EmptyString => false | _ => true end.

End JS.

(** ** Regular expressions

    The two patterns of the sources ([EMAIL_REGEX] in index.ts and
    [domainRegex] in loader.ts) are anchored at both ends and use only
    character classes, concatenation, alternation and repetition, so
    [RegExp.prototype.test] decides membership of the whole string in the
    language of the pattern.  [test] decides it by derivatives. *)

Module Regex.

Inductive regex : Type :=
| Void : regex
| Eps : regex
| Cls : (ascii -> bool) -> regex
| Cat : regex -> regex -> regex
| Alt : regex -> regex -> regex
| Star : regex -> regex.

(** A literal character. *)
Definition Chr (c : ascii) : regex := Cls (Ascii.eqb c).
(** [r+] *)
Definition Plus (r : regex) : regex := Cat r (Star r).
(** [r?] *)
Definition Opt (r : regex) : regex := Alt Eps r.
(** [r{0,n}] *)
Fixpoint UpTo (n : nat) (r : regex) : regex :=
  match n with
  | O => Eps
  | S n' => Opt (Cat r (UpTo n' r))
  end.

Fixpoint nullable (r : regex) : bool :=
  match r with
  | Void => false
  | Eps => true
  | Cls _ => false
  | Cat r1 r2 => nullable r1 && nullable r2
  | Alt r1 r2 => nullable r1 || nullable r2
  | Star _ => true
  end.

(** Constructors that drop [Void] and [Eps], to keep derivatives small. *)
Definition cat (r1 r2 : regex) : regex :=
  match r1, r2 with
  | Void, _ => Void
  | _, Void => Void
  | Eps, _ => r2
  | _, _ => Cat r1 r2
  end.

Definition alt (r1 r2 : regex) : regex :=
  match r1, r2 with
  | Void, _ => r2
  | _, Void => r1
  | _, _ => Alt r1 r2
  end.

Fixpoint deriv (c : ascii) (r : regex) : regex :=
  match r with
  | Void => Void
  | Eps => Void
  | Cls p => if p c then Eps else Void
  | Cat r1 r2 =>
      if nullable r1 then alt (cat (deriv c r1) r2) (deriv c r2)
      else cat (deriv c r1) r2
  | Alt r1 r2 => alt (deriv c r1) (deriv c r2)
  | Star r1 => cat (deriv c r1) (Star r1)
  end.

(** [/^r$/.test(s)] *)
Fixpoint test (r : regex) (s : string) : bool :=
  match s with
  | EmptyString => nullable r
  | String c s' => test (deriv c r) s'
  end.

End Regex.

(** ** src/utils/trie.ts *)

Module DomainTrie.

(** [interface TrieNode { children: Map<string, TrieNode>; isEnd: boolean }] *)
Inductive TrieNode : Type :=
  Node { isEnd : bool; children : gmap string TrieNode }.

Record t : Type := Trie { root : TrieNode }.

Definition freshNode : TrieNode := Node false ∅.

(** [constructor()] *)
Definition empty : t := Trie freshNode.

(** The reversed label sequence both [insert] and [hasDomain] compute:
    [domain.toLowerCase().split('.').reverse()]. *)
Definition reversedParts (domain : string) : list string :=
  rev (JS.split "." (JS.toLowerCase domain)).

(** The loop of [insert]: descend along the parts, creating the missing
    children, and set [isEnd] on the node reached. *)
Fixpoint insertParts (parts : list string) (node : TrieNode) : TrieNode :=
  match parts with
  | [] => Node true (children node)
  | part :: rest =>
      let child := default freshNode (children node !! part) in
      Node (isEnd node) (<[part := insertParts rest child]> (children node))
  end.

Definition insert (domain : string) (trie : t) : t :=
  Trie (insertParts (reversedParts domain) (root trie)).

(** The inner loop of [hasDomain] from one starting offset, followed by
    the test [if (node.isEnd) return true] that comes after the loop:
    [parts] is [reversedParts[start..]]. *)
Fixpoint matchFrom (node : TrieNode) (parts : list string) : bool :=
  match parts with
  | [] => isEnd node
  | part :: rest =>
      match children node !! part with
      | None => isEnd node
      | Some childNode =>
          if isEnd childNode then true else matchFrom childNode rest
      end
  end.

(** [hasDomain]: the outer loop over [start = 0 .. partsLength - 1]. *)
Definition hasDomain (trie : t) (domain : string) : bool :=
  let parts := reversedParts domain in
  existsb (fun start => matchFrom (root trie) (drop start parts))
          (seq 0 (length parts)).

(** [static fromDomains(domains)] *)
Definition fromDomains (domains : list string) : t :=
  foldl (fun trie domain => insert domain trie) empty domains.

End DomainTrie.



(** ** Completions and insertion-ordered maps *)

(** A call either returns a value or throws; a thrown [Error] is modelled
    by its message. *)
Inductive completion (A : Type) : Type :=
| Return : A -> completion A
| Throw : string -> completion A.
Arguments Return {A} _.
Arguments Throw {A} _.

(** [Map<string, V>] where the iteration order matters: entries in insertion
    order, keys unique. *)
Module JSMap.

Definition t (V : Type) : Type := list (string * V).

(** [m.get(k)], [None] for [undefined] *)
Fixpoint get {V} (k : string) (m : t V) : option V :=
  match m with
  | [] => None
  | (k', v) :: m' => if String.eqb k' k then Some v else get k m'
  end.

(** [m.set(k, v)]: an existing key keeps its position, a new key goes last. *)
Fixpoint set {V} (k : string) (v : V) (m : t V) : t V :=
  match m with
  | [] => [(k, v)]
  | (k', v') :: m' =>
      if String.eqb k' k then (k', v) :: m' else (k', v') :: set k v m'
  end.

(** [m.delete(k)] *)
Fixpoint delete {V} (k : string) (m : t V) : t V :=
  match m with
  | [] => []
  | (k', v') :: m' => if String.eqb k' k then m' else (k', v') :: delete k m'
  end.

(** [m.size] *)
Definition size {V} (m : t V) : nat := length m.

(** [m.keys().next().value], [None] for [undefined] *)
Definition firstKey {V} (m : t V) : option string :=
  match m with
  | [] => None
  | (k, _) :: _ => Some k
  end.

Definition keys {V} (m : t V) : list string := map fst m.

End JSMap.

(** ** src/data/loader.ts *)

Module Loader.

(** What the outside world supplies to one load: for each of the
    [possiblePaths] of [loadDomainsFromFile], in order, the JSON array read
    from it ([None] when the file is missing, unreadable or not an array;
    the list is empty outside Node.js), and the results of the nine
    fetchers of [fetchDomains], in order (a fetcher that fails yields
    [[]]). *)
Record Env : Type := {
  localFiles : list (option (list string));
  sources : list (list string)
}.

Record State : Type := {
  cachedDomains : option (list string);
  (** the settled [loadPromise], if a load was started *)
  loadPromise : option (completion (list string))
}.

Definition initial : State :=
  {| cachedDomains := None; loadPromise := None |}.

(** [.replace(/^https?:\/\//, '')] *)
Definition stripScheme (s : string) : string :=
  if JS.startsWith s "https://" then JS.sliceFrom 8 s
  else if JS.startsWith s "http://" then JS.sliceFrom 7 s
  else s.

(** [.replace(/^www\./, '')] *)
Definition stripWww (s : string) : string :=
  if JS.startsWith s "www." then JS.sliceFrom 4 s else s.

(** [.split(sep)[0]] *)
Definition firstPiece (sep : ascii) (s : string) : string :=
  hd EmptyString (JS.split sep s).

Definition normalizeDomain (domain : string) : string :=
  firstPiece "#"
    (firstPiece "?"
       (firstPiece "/"
          (stripWww (stripScheme (JS.trim (JS.toLowerCase domain)))))).

Definition between (lo hi : nat) (c : ascii) : bool :=
  (lo <=? nat_of_ascii c) && (nat_of_ascii c <=? hi).

(** [[a-z]] under the [i] flag *)
Definition alpha (c : ascii) : bool := between 97 122 c || between 65 90 c.
(** [[a-z0-9]] under the [i] flag *)
Definition alnum (c : ascii) : bool := alpha c || between 48 57 c.
(** [[a-z0-9\-]] under the [i] flag *)
Definition alnumDash (c : ascii) : bool := alnum c || Ascii.eqb c "-".

(** [[a-z0-9]([a-z0-9\-]{0,61}[a-z0-9])?] *)
Definition labelRegex : Regex.regex :=
  Regex.Cat (Regex.Cls alnum)
    (Regex.Opt (Regex.Cat (Regex.UpTo 61 (Regex.Cls alnumDash))
                          (Regex.Cls alnum))).

(** [/^[a-z0-9]([a-z0-9\-]{0,61}[a-z0-9])?(\.[a-z0-9]([a-z0-9\-]{0,61}[a-z0-9])?)*\.[a-z]{2,}$/i] *)
Definition domainRegex : Regex.regex :=
  Regex.Cat labelRegex
    (Regex.Cat (Regex.Star (Regex.Cat (Regex.Chr ".") labelRegex))
       (Regex.Cat (Regex.Chr ".")
          (Regex.Cat (Regex.Cls alpha)
             (Regex.Cat (Regex.Cls alpha) (Regex.Star (Regex.Cls alpha)))))).

Definition isValidDomain (domain : string) : bool :=
  if negb (JS.truthy domain) || (String.length domain <? 3) then false
  else if negb (JS.includes domain ".") then false
  else if JS.startsWith domain "." || JS.endsWith domain "." then false
  else if JS.includes domain " " then false
  else Regex.test domainRegex domain.

(** [mergedSet.add(x)]: a [Set] iterates in insertion order. *)
Definition setAdd (acc : list string) (x : string) : list string :=
  if existsb (String.eqb x) acc then acc else acc ++ [x].

(** The [forEach] that fills [mergedSet]. *)
Definition mergeInto (acc : list string) (domain : string) : list string :=
  let normalized := normalizeDomain domain in
  if isValidDomain normalized then setAdd acc normalized else acc.

(** [.sort()] on strings: ascending code-unit order. *)
Fixpoint sortedInsert (x : string) (l : list string) : list string :=
  match l with
  | [] => [x]
  | y :: l' => if String.leb x y then x :: l else y :: sortedInsert x l'
  end.

Definition sort (l : list string) : list string :=
  foldr sortedInsert [] l.

(** The array [merged] of [fetchDomains]. *)
Definition merged (srcs : list (list string)) : list string :=
  sort (foldl mergeInto [] (concat srcs)).

Definition noDomainsMessage : string :=
  "No domains could be loaded from any source".

Definition fetchDomains (srcs : list (list string)) : completion (list string) :=
  let merged := merged srcs in
  if length merged =? 0 then Throw noDomainsMessage else Return merged.

(** [domains.map((d) => d.toLowerCase().trim()).filter(Boolean)] *)
Definition cleanFileDomains (domains : list string) : list string :=
  List.filter JS.truthy (map (fun d => JS.trim (JS.toLowerCase d)) domains).

Fixpoint loadDomainsFromFile (files : list (option (list string)))
  : option (list string) :=
  match files with
  | [] => None
  | Some (d :: ds) :: _ => Some (cleanFileDomains (d :: ds))
  | _ :: rest => loadDomainsFromFile rest
  end.

(** [loadDomains], run to completion. *)
Definition loadDomains (env : Env) (st : State)
  : completion (list string) * State :=
  match cachedDomains st with
  | Some cached => (Return cached, st)
  | None =>
      match loadPromise st with
      | Some settled => (settled, st)
      | None =>
          let viaUrls :=
            match fetchDomains (sources env) with
            | Return urlDomains =>
                (Return urlDomains,
                 {| cachedDomains := Some urlDomains;
                    loadPromise := Some (Return urlDomains) |})
            | Throw e =>
                (Throw e,
                 {| cachedDomains := None; loadPromise := Some (Throw e) |})
            end in
          match loadDomainsFromFile (localFiles env) with
          | Some (d :: ds) =>
              (Return (d :: ds),
               {| cachedDomains := Some (d :: ds);
                  loadPromise := Some (Return (d :: ds)) |})
          | _ => viaUrls
          end
      end
  end.

Definition getCachedDomains (st : State) : option (list string) :=
  cachedDomains st.

Definition isDomainsLoaded (st : State) : bool :=
  match cachedDomains st with Some _ => true | None => false end.

Definition clearCache (st : State) : State := initial.

(** The sequence the supply side hands over in a fresh load: the local file
    when it has entries, the merged remote lists otherwise. *)
Definition supplied (env : Env) : list string :=
  match loadDomainsFromFile (localFiles env) with
  | Some (d :: ds) => d :: ds
  | _ => merged (sources env)
  end.

End Loader.


(** ** src/index.ts *)

Module ValidationResult.

Record t : Type := {
  isValid : bool;
  isTempEmail : bool;
  error : option string
}.

End ValidationResult.

Module Guard.

(** The module-level variables of index.ts, together with those of the
    loader module it imports. *)
Record State : Type := {
  TEMP_EMAIL_DOMAINS_SET : option (gset string);
  TEMP_EMAIL_DOMAINS_TRIE : option DomainTrie.t;
  TEMP_EMAIL_DOMAINS_ARRAY : option (list string);
  DOMAIN_CACHE : JSMap.t bool;
  loader : Loader.State
}.

(** The state when the module has just been loaded. *)
Definition initial : State :=
  {| TEMP_EMAIL_DOMAINS_SET := None;
     TEMP_EMAIL_DOMAINS_TRIE := None;
     TEMP_EMAIL_DOMAINS_ARRAY := None;
     DOMAIN_CACHE := [];
     loader := Loader.initial |}.

Definition withCache (cache : JSMap.t bool) (st : State) : State :=
  {| TEMP_EMAIL_DOMAINS_SET := TEMP_EMAIL_DOMAINS_SET st;
     TEMP_EMAIL_DOMAINS_TRIE := TEMP_EMAIL_DOMAINS_TRIE st;
     TEMP_EMAIL_DOMAINS_ARRAY := TEMP_EMAIL_DOMAINS_ARRAY st;
     DOMAIN_CACHE := cache;
     loader := loader st |}.

Definition withLoader (l : Loader.State) (st : State) : State :=
  {| TEMP_EMAIL_DOMAINS_SET := TEMP_EMAIL_DOMAINS_SET st;
     TEMP_EMAIL_DOMAINS_TRIE := TEMP_EMAIL_DOMAINS_TRIE st;
     TEMP_EMAIL_DOMAINS_ARRAY := TEMP_EMAIL_DOMAINS_ARRAY st;
     DOMAIN_CACHE := DOMAIN_CACHE st;
     loader := l |}.

(** [[^\s@]] *)
Definition notSpaceAt (c : ascii) : bool :=
  negb (JS.isSpace c || Ascii.eqb c "@").

(** [/^[^\s@]+@[^\s@]+\.[^\s@]+$/] *)
Definition EMAIL_REGEX : Regex.regex :=
  Regex.Cat (Regex.Plus (Regex.Cls notSpaceAt))
    (Regex.Cat (Regex.Chr "@")
       (Regex.Cat (Regex.Plus (Regex.Cls notSpaceAt))
          (Regex.Cat (Regex.Chr ".") (Regex.Plus (Regex.Cls notSpaceAt))))).

Definition MAX_CACHE_SIZE : nat := 1000.

Definition cacheResult (domain : string) (result : bool)
    (cache : JSMap.t bool) : JSMap.t bool :=
  let cache' :=
    if MAX_CACHE_SIZE <=? JSMap.size cache then
      match JSMap.firstKey cache with
      | Some firstKey => JSMap.delete firstKey cache
      | None => cache
      end
    else cache in
  JSMap.set domain result cache'.

Definition initializeDomains (domains : list string) (st : State) : State :=
  {| TEMP_EMAIL_DOMAINS_SET := Some (list_to_set domains);
     TEMP_EMAIL_DOMAINS_TRIE := Some (DomainTrie.fromDomains domains);
     TEMP_EMAIL_DOMAINS_ARRAY := Some domains;
     DOMAIN_CACHE := DOMAIN_CACHE st;
     loader := loader st |}.

(** [ensureDomainsLoaded], run to completion in the environment [env]. *)
Definition ensureDomainsLoaded (env : Loader.Env) (st : State)
  : completion unit * State :=
  if Loader.isDomainsLoaded (loader st) then (Return tt, st)
  else
    let (loaded, l') := Loader.loadDomains env (loader st) in
    let st' := withLoader l' st in
    match loaded with
    | Throw e => (Throw e, st')
    | Return domains =>
        match TEMP_EMAIL_DOMAINS_SET st' with
        | None => (Return tt, initializeDomains domains st')
        | Some _ => (Return tt, st')
        end
    end.

Definition getTempEmailDomains (st : State) : list string :=
  default [] (TEMP_EMAIL_DOMAINS_ARRAY st).

Definition clearCache (st : State) : State :=
  {| TEMP_EMAIL_DOMAINS_SET := None;
     TEMP_EMAIL_DOMAINS_TRIE := None;
     TEMP_EMAIL_DOMAINS_ARRAY := None;
     DOMAIN_CACHE := [];
     loader := Loader.clearCache (loader st) |}.

Definition initialize (env : Loader.Env) (st : State)
  : completion unit * State :=
  ensureDomainsLoaded env st.

(** The block of [isTempEmail] that builds the structures on demand:
    [None] stands for its [return false]. *)
Definition autoInitialize (st : State) : option State :=
  match TEMP_EMAIL_DOMAINS_SET st, TEMP_EMAIL_DOMAINS_TRIE st with
  | Some _, Some _ => Some st
  | _, _ =>
      match Loader.getCachedDomains (loader st) with
      | Some cached => Some (initializeDomains cached st)
      | None => None
      end
  end.

Definition typeError : string := "TypeError".

Definition isTempEmail (email : string) (st : State)
  : completion bool * State :=
  if negb (JS.truthy email) then (Return false, st)
  else
    match autoInitialize st with
    | None => (Return false, st)
    | Some st =>
        let atIndex := JS.indexOf "@" email in
        if (atIndex =? -1)%Z
           || (atIndex =? Z.of_nat (String.length email) - 1)%Z
        then (Return false, st)
        else
          let domain :=
            JS.trim (JS.toLowerCase
                       (JS.sliceFrom (Z.to_nat (atIndex + 1)) email)) in
          if negb (JS.truthy domain) then (Return false, st)
          else
            match JSMap.get domain (DOMAIN_CACHE st) with
            | Some cachedResult => (Return cachedResult, st)
            | None =>
                match TEMP_EMAIL_DOMAINS_SET st, TEMP_EMAIL_DOMAINS_TRIE st with
                | Some domainsSet, Some domainsTrie =>
                    let result :=
                      if decide (domain ∈ domainsSet) then true
                      else DomainTrie.hasDomain domainsTrie domain in
                    (Return result,
                     withCache (cacheResult domain result (DOMAIN_CACHE st)) st)
                | _, _ => (Throw typeError, st)
                end
            end
    end.

Definition invalidInput : ValidationResult.t :=
  {| ValidationResult.isValid := false;
     ValidationResult.isTempEmail := false;
     ValidationResult.error := Some "Email is required and must be a string" |}.

Definition invalidFormat : ValidationResult.t :=
  {| ValidationResult.isValid := false;
     ValidationResult.isTempEmail := false;
     ValidationResult.error := Some "Invalid email format" |}.

Definition validateEmail (email : string) (st : State)
  : completion ValidationResult.t * State :=
  if negb (JS.truthy email) then (Return invalidInput, st)
  else
    let isValidFormat := Regex.test EMAIL_REGEX email in
    if negb isValidFormat then (Return invalidFormat, st)
    else
      match isTempEmail email st with
      | (Throw e, st') => (Throw e, st')
      | (Return isTemp, st') =>
          (Return
             {| ValidationResult.isValid := true;
                ValidationResult.isTempEmail := isTemp;
                ValidationResult.error :=
                  if isTemp then Some "Email is from a temporary email service"
                  else None |},
           st')
      end.

(** [isTempEmailAsync], [validateEmailAsync] and [getTempEmailDomainsAsync]:
    [await ensureDomainsLoaded()] first, a rejection of which rejects the
    call, then the synchronous function. *)
Definition isTempEmailAsync (env : Loader.Env) (email : string) (st : State)
  : completion bool * State :=
  match ensureDomainsLoaded env st with
  | (Throw e, st') => (Throw e, st')
  | (Return _, st') => isTempEmail email st'
  end.

Definition validateEmailAsync (env : Loader.Env) (email : string) (st : State)
  : completion ValidationResult.t * State :=
  match ensureDomainsLoaded env st with
  | (Throw e, st') => (Throw e, st')
  | (Return _, st') => validateEmail email st'
  end.

Definition getTempEmailDomainsAsync (env : Loader.Env) (st : State)
  : completion (list string) * State :=
  match ensureDomainsLoaded env st with
  | (Throw e, st') => (Throw e, st')
  | (Return _, st') => (Return (getTempEmailDomains st'), st')
  end.

End Guard.

(** ** src/utils/dns-detector.ts *)

Module DnsDetector.

Definition DISPOSABLE_MX_PATTERNS : list string :=
  [ "mailinator.com"; "guerrillamail"; "tempmail"; "throwaway";
    "10minutemail"; "yopmail"; "mohmal"; "getnada"; "maildrop"; "trashmail";
    "dispostable"; "mintemail"; "fakeinbox"; "sharklasers"; "spamgourmet";
    "mailcatch"; "inboxkitten"; "mailmoat"; "mailnesia"; "mytrashmail";
    "putthisinyourspamdatabase"; "spambox"; "tempinbox"; "tempmailaddress";
    "throwawaymail"; "tmpmail"; "trashmailer"; "getairmail"; "meltmail";
    "emailondeck"; "fakemailgenerator" ].

(** An entry of [mxCache]: [{ mx: string[] | null; timestamp: number }]. *)
Record CacheEntry : Type := {
  mx : option (list string);
  timestamp : Z
}.

(** [mxCache]; it is never iterated, so its order is not modelled. *)
Abbreviation Cache := (gmap string CacheEntry).

(** [24 * 60 * 60 * 1000] *)
Definition CACHE_TTL : Z := 24 * 60 * 60 * 1000.

(** The outside world of one lookup: what [dns.resolveMx] answers for a
    domain (the [exchange] of each record; [None] when it rejects), the
    value of [Date.now()] at the cache test and its value when the answer
    is stored. *)
Record World : Type := {
  resolveMx : string -> option (list string);
  now : Z;
  settledAt : Z
}.

Definition getMXRecords (w : World) (domain : string) (mxCache : Cache)
  : option (list string) * Cache :=
  let lookup :=
    match resolveMx w domain with
    | Some exchanges =>
        let mxHosts := map JS.toLowerCase exchanges in
        (Some mxHosts,
         <[domain := {| mx := Some mxHosts; timestamp := settledAt w |}]> mxCache)
    | None =>
        (None, <[domain := {| mx := None; timestamp := settledAt w |}]> mxCache)
    end in
  match mxCache !! domain with
  | Some cached =>
      if (now w - timestamp cached <? CACHE_TTL)%Z then (mx cached, mxCache)
      else lookup
  | None => lookup
  end.

Definition matchesDisposablePattern (mxHosts : list string) : bool :=
  existsb (fun pattern => existsb (fun mx => JS.includes mx pattern) mxHosts)
          DISPOSABLE_MX_PATTERNS.

Definition isDisposableByDNS (w : World) (domain : string) (mxCache : Cache)
  : bool * Cache :=
  if negb (JS.truthy domain) || negb (JS.includes domain ".") then
    (false, mxCache)
  else
    match getMXRecords w domain mxCache with
    | (None, mxCache') => (false, mxCache')
    | (Some [], mxCache') => (false, mxCache')
    | (Some mxHosts, mxCache') => (matchesDisposablePattern mxHosts, mxCache')
    end.

Definition clearDNSCache (mxCache : Cache) : Cache := ∅.

(** [cached?.mx || null] *)
Definition getCachedMX (domain : string) (mxCache : Cache)
  : option (list string) :=
  match mxCache !! domain with
  | Some cached => mx cached
  | None => None
  end.

End DnsDetector.

(* ===================================================================== *)
(** * Part II: the notions the properties are stated with *)
(* ===================================================================== *)

(** ** Domains as label sequences *)

(** The labels of a domain in canonical (lowercased) form. *)
Definition labels (domain : string) : list string :=
  JS.split "." (JS.toLowerCase domain).

(** [block] occurs in [l] as a run of consecutive elements. *)
Definition contiguousBlock {A} (block l : list A) : Prop :=
  exists before after, l = before ++ block ++ after.

(** [d] is [q] itself or an ancestor of [q]: the labels of [d] end the
    labels of [q]. *)
Definition labelSuffix (d q : string) : Prop :=
  exists before, labels q = before ++ labels d.

(** Two characters, then two strings, that differ at most in letter case. *)
Definition sameLetter (c1 c2 : ascii) : Prop :=
  c1 = c2
  \/ (JS.isUpper c1 = true /\ c2 = JS.toLowerChar c1)
  \/ (JS.isUpper c2 = true /\ c1 = JS.toLowerChar c2).

Inductive caseVariant : string -> string -> Prop :=
| caseVariant_nil : caseVariant EmptyString EmptyString
| caseVariant_cons c1 c2 s1 s2 :
    sameLetter c1 c2 -> caseVariant s1 s2 ->
    caseVariant (String c1 s1) (String c2 s2).

(** A string is canonical when lowercasing leaves it unchanged. *)
Definition canonical (s : string) : Prop := JS.toLowerCase s = s.

(** ** Paths in the trie *)

Module TriePath.
Import DomainTrie.

(** The node reached from [node] along [path], if all its edges exist. *)
Fixpoint descend (node : TrieNode) (path : list string) : option TrieNode :=
  match path with
  | [] => Some node
  | part :: rest =>
      match children node !! part with
      | Some child => descend child rest
      | None => None
      end
  end.

(** [path] leads from [node] to a node marked [isEnd]. *)
Definition terminalAt (node : TrieNode) (path : list string) : bool :=
  match descend node path with
  | Some n => isEnd n
  | None => false
  end.

End TriePath.

(** ** The language of a regular expression *)

Inductive Matches : Regex.regex -> string -> Prop :=
| Matches_eps : Matches Regex.Eps EmptyString
| Matches_cls p c : p c = true -> Matches (Regex.Cls p) (String c EmptyString)
| Matches_cat r1 r2 s1 s2 :
    Matches r1 s1 -> Matches r2 s2 -> Matches (Regex.Cat r1 r2) (s1 +:+ s2)
| Matches_alt_l r1 r2 s : Matches r1 s -> Matches (Regex.Alt r1 r2) s
| Matches_alt_r r1 r2 s : Matches r2 s -> Matches (Regex.Alt r1 r2) s
| Matches_star_nil r : Matches (Regex.Star r) EmptyString
| Matches_star_app r s1 s2 :
    Matches r s1 -> Matches (Regex.Star r) s2 ->
    Matches (Regex.Star r) (s1 +:+ s2).

(** Every character of [s] satisfies [p]. *)
Fixpoint allChars (p : ascii -> bool) (s : string) : bool :=
  match s with
  | EmptyString => true
  | String c s' => p c && allChars p s'
  end.

(** ** The structural checks on an email address *)

(** Some [.] of [s] has a character after it. *)
Fixpoint dotBeforeEnd (s : string) : bool :=
  match s with
  | EmptyString => false
  | String c s' => (Ascii.eqb c "." && JS.truthy s') || dotBeforeEnd s'
  end.

(** Some [.] of [domain] is neither its first nor its last character. *)
Definition innerDot (domain : string) : bool :=
  match domain with
  | EmptyString => false
  | String _ rest => dotBeforeEnd rest
  end.

(** The check as the specification words it: exactly one [@], a nonempty
    local part, a nonempty domain part containing at least one [.]. *)
Definition specStructuralCheck (email : string) : bool :=
  match JS.split "@" email with
  | [localPart; domainPart] =>
      JS.truthy localPart && JS.truthy domainPart
      && JS.includes domainPart "."
  | _ => false
  end.

(** The check [EMAIL_REGEX] performs: exactly one [@], no blank character
    anywhere, a nonempty local part, a domain part with a [.] that has at
    least one character on each side. *)
Definition formatCheck (email : string) : bool :=
  match JS.split "@" email with
  | [localPart; domainPart] =>
      allChars (fun c => negb (JS.isSpace c)) email
      && JS.truthy localPart && innerDot domainPart
  | _ => false
  end.

(** The strings [EMAIL_REGEX] accepts: [l@a.b] with [l], [a], [b] nonempty
    and free of blanks and of [@]. *)
Definition emailShape (s : string) : Prop :=
  exists l a b,
    s = l +:+ String "@" (a +:+ String "." b) /\
    (l <> EmptyString /\ allChars Guard.notSpaceAt l = true) /\
    (a <> EmptyString /\ allChars Guard.notSpaceAt a = true) /\
    (b <> EmptyString /\ allChars Guard.notSpaceAt b = true).

(** No character of [s] is an upper-case letter. *)
Definition noUpper (s : string) : bool :=
  allChars (fun c => negb (JS.isUpper c)) s.

(** ** The pieces of [isTempEmail] *)

(** The test [atIndex === -1 || atIndex === email.length - 1]. *)
Definition noDomainPart (email : string) : bool :=
  (JS.indexOf "@" email =? -1)%Z
  || (JS.indexOf "@" email =? Z.of_nat (String.length email) - 1)%Z.

(** The domain [isTempEmail] extracts: what follows the first [@],
    lowercased and trimmed. *)
Definition emailDomain (email : string) : string :=
  JS.trim (JS.toLowerCase
             (JS.sliceFrom (Z.to_nat (JS.indexOf "@" email + 1)) email)).

(** The verdict computed on a cache miss: exact set first, then the trie. *)
Definition lookupVerdict (set : gset string) (trie : DomainTrie.t)
    (domain : string) : bool :=
  if decide (domain ∈ set) then true else DomainTrie.hasDomain trie domain.

(** ** Operations on the recency cache and calls of the module *)

Module Run.

(** The two operations [isTempEmail] performs on [DOMAIN_CACHE]. *)
Inductive cacheOp : Type :=
| CacheGet (domain : string)
| CachePut (domain : string) (result : bool).

Definition applyCacheOp (cache : JSMap.t bool) (op : cacheOp) : JSMap.t bool :=
  match op with
  | CacheGet _ => cache
  | CachePut domain result => Guard.cacheResult domain result cache
  end.

(** The exported functions that touch the state; the asynchronous variants
    are [Initialize] followed by the synchronous call.  [LoadDomains] and
    [ClearLoaderCache] are the loader's own exports, called directly. *)
Inductive call : Type :=
| IsTempEmail (email : string)
| ValidateEmail (email : string)
| Initialize (env : Loader.Env)
| ClearCache
| LoadDomains (env : Loader.Env)
| ClearLoaderCache.

Definition step (st : Guard.State) (c : call) : Guard.State :=
  match c with
  | IsTempEmail email => snd (Guard.isTempEmail email st)
  | ValidateEmail email => snd (Guard.validateEmail email st)
  | Initialize env => snd (Guard.initialize env st)
  | ClearCache => Guard.clearCache st
  | LoadDomains env =>
      Guard.withLoader (snd (Loader.loadDomains env (Guard.loader st))) st
  | ClearLoaderCache =>
      Guard.withLoader (Loader.clearCache (Guard.loader st)) st
  end.

Definition run (calls : list call) : Guard.State :=
  foldl step Guard.initial calls.

(** A supply used in the examples: no local file, three remote lists. *)
Definition testEnv : Loader.Env :=
  {| Loader.localFiles := [None; None; None];
     Loader.sources := [["# list"; "0-180.com"]; [];
                        ["HTTP://www.0-Mail.com/"]] |}.

(** A cache filled to capacity with distinct keys, used as a test input. *)
Definition testKey (n : nat) : string :=
  String (ascii_of_nat (48 + n / 32))
    (String (ascii_of_nat (48 + n mod 32)) ".com").

Definition fullCache : JSMap.t bool :=
  map (fun n => (testKey n, Nat.even n)) (seq 0 Guard.MAX_CACHE_SIZE).

End Run.

(** ** Invariants of the reachable states *)

(** Whatever the loader has cached or settled is in canonical form. *)
Definition loaderCanonical (l : Loader.State) : Prop :=
  (forall ds, Loader.cachedDomains l = Some ds -> Forall canonical ds) /\
  (forall ds, Loader.loadPromise l = Some (Return ds) -> Forall canonical ds).

(** The three structures are absent together or built from one canonical
    sequence. *)
Definition builtFrom (st : Guard.State) : Prop :=
  match Guard.TEMP_EMAIL_DOMAINS_SET st, Guard.TEMP_EMAIL_DOMAINS_TRIE st,
        Guard.TEMP_EMAIL_DOMAINS_ARRAY st with
  | None, None, None => True
  | Some set, Some trie, Some domains =>
      Forall canonical domains /\ set = list_to_set domains
      /\ trie = DomainTrie.fromDomains domains
  | _, _, _ => False
  end.

Definition stateInvariant (st : Guard.State) : Prop :=
  loaderCanonical (Guard.loader st) /\ builtFrom st.

(** ** Notions for the further properties *)

(** [l] is in ascending order: each element is at most the next. *)
Definition ascending (l : list string) : Prop :=
  Sorted (fun a b => String.leb a b = true) l.

(** Letters, digits, the hyphen and the dot. *)
Definition hostChar (c : ascii) : bool :=
  Loader.alnumDash c || Ascii.eqb c ".".

(** Every character class of [r] is included in [p]. *)
Fixpoint classesWithin (p : ascii -> bool) (r : Regex.regex) : Prop :=
  match r with
  | Regex.Void | Regex.Eps => True
  | Regex.Cls q => forall c, q c = true -> p c = true
  | Regex.Cat r1 r2 | Regex.Alt r1 r2 => classesWithin p r1 /\ classesWithin p r2
  | Regex.Star r1 => classesWithin p r1
  end.

(** Every entry of the cache is the verdict the structures give. *)
Definition cacheCoherent (st : Guard.State) : Prop :=
  match Guard.TEMP_EMAIL_DOMAINS_SET st, Guard.TEMP_EMAIL_DOMAINS_TRIE st with
  | Some set, Some trie =>
      Forall (fun entry => snd entry = lookupVerdict set trie (fst entry))
             (Guard.DOMAIN_CACHE st)
  | _, _ => Guard.DOMAIN_CACHE st = []
  end.

(* ===================================================================== *)
(** * Part III: properties *)
(* ===================================================================== *)

(** ** Strings *)

Section StringFacts.

Lemma split_nonempty sep s : JS.split sep s <> [].
Proof.
  destruct s as [|c s]; simpl; [discriminate|].
  destruct (Ascii.eqb c sep); [discriminate|].
  destruct (JS.split sep s); discriminate.
Qed.

Lemma split_app sep a b :
  JS.split sep (a +:+ String sep b) = JS.split sep a ++ JS.split sep b.
Proof.
  induction a as [|c a IH]; simpl.
  - by rewrite Ascii.eqb_refl.
  - destruct (Ascii.eqb c sep); [by rewrite IH|].
    rewrite IH. pose proof (split_nonempty sep a) as Hne.
    destruct (JS.split sep a); [done|reflexivity].
Qed.

Lemma toLowerCase_app a b :
  JS.toLowerCase (a +:+ b) = JS.toLowerCase a +:+ JS.toLowerCase b.
Proof. induction a as [|c a IH]; simpl; [done|by rewrite IH]. Qed.

Lemma toLowerChar_idem c : JS.toLowerChar (JS.toLowerChar c) = JS.toLowerChar c.
Proof.
  destruct c as [[] [] [] [] [] [] [] []]; vm_compute; reflexivity.
Qed.

Lemma toLowerCase_idem s : JS.toLowerCase (JS.toLowerCase s) = JS.toLowerCase s.
Proof.
  induction s as [|c s IH]; simpl; [done|].
  by rewrite toLowerChar_idem, IH.
Qed.

Lemma sameLetter_lower c1 c2 :
  sameLetter c1 c2 -> JS.toLowerChar c1 = JS.toLowerChar c2.
Proof.
  intros [->|[[_ ->]|[_ ->]]]; [done| |]; by rewrite toLowerChar_idem.
Qed.

Lemma caseVariant_lower s1 s2 :
  caseVariant s1 s2 -> JS.toLowerCase s1 = JS.toLowerCase s2.
Proof.
  induction 1 as [|c1 c2 s1 s2 Hc _ IH]; simpl; [done|].
  by rewrite (sameLetter_lower _ _ Hc), IH.
Qed.

Lemma caseVariant_toLowerCase s : caseVariant s (JS.toLowerCase s).
Proof.
  induction s as [|c s IH]; simpl; constructor; [|done].
  unfold sameLetter, JS.toLowerChar.
  destruct (JS.isUpper c) eqn:Hu; [right; left|left]; done.
Qed.

Lemma labels_prepend P D : labels (P +:+ String "." D) = labels P ++ labels D.
Proof.
  unfold labels. rewrite toLowerCase_app. simpl JS.toLowerCase.
  change (JS.toLowerChar ".") with "."%char. apply split_app.
Qed.

End StringFacts.

(** ** The trie: which paths are terminal *)

Section TrieFacts.
Import DomainTrie TriePath.

Lemma terminalAt_freshNode path : terminalAt freshNode path = false.
Proof. destruct path; reflexivity. Qed.

Lemma terminalAt_cons node part rest :
  terminalAt node (part :: rest) =
  match children node !! part with
  | Some child => terminalAt child rest
  | None => false
  end.
Proof. unfold terminalAt; simpl. by destruct (children node !! part). Qed.

(** After [insertParts parts], exactly one more path is terminal. *)
Lemma terminalAt_insertParts parts : forall node path,
  terminalAt (insertParts parts node) path =
  if decide (path = parts) then true else terminalAt node path.
Proof.
  induction parts as [|x rest IH]; intros node path.
  - destruct path as [|y q]; [reflexivity|].
    rewrite !terminalAt_cons. cbn [insertParts children].
    by rewrite decide_False.
  - destruct path as [|y q]; [reflexivity|].
    rewrite !terminalAt_cons. cbn [insertParts children].
    destruct (decide (x = y)) as [<-|Hxy].
    + rewrite lookup_insert_eq, IH.
      destruct (decide (q = rest)) as [->|Hq].
      * by rewrite decide_True.
      * rewrite decide_False by congruence.
        destruct (children node !! x); [done|apply terminalAt_freshNode].
    + rewrite lookup_insert_ne by done.
      rewrite decide_False by congruence. done.
Qed.

Lemma reversedParts_nonempty d : reversedParts d <> [].
Proof.
  unfold reversedParts. intros H%(f_equal (@length string)).
  rewrite length_rev in H.
  pose proof (split_nonempty "." (JS.toLowerCase d)).
  destruct (JS.split "." (JS.toLowerCase d)); [done|discriminate].
Qed.

Lemma terminalAt_foldl_insert domains : forall trie path,
  terminalAt (root (foldl (fun t d => insert d t) trie domains)) path = true <->
  terminalAt (root trie) path = true \/
  exists d, d ∈ domains /\ path = reversedParts d.
Proof.
  induction domains as [|d0 ds IH]; intros trie path; simpl.
  - split; [by left|]. intros [H|(d & Hd & _)]; [done|by apply elem_of_nil in Hd].
  - rewrite IH. unfold insert. cbn [root]. rewrite terminalAt_insertParts.
    split.
    + intros [H|(d & Hd & ->)].
      * destruct (decide (path = reversedParts d0)) as [->|];
          [right; exists d0; split; [left|done]|by left].
      * right. exists d. split; [by right|done].
    + intros [H|(d & Hd & ->)].
      * left. by destruct (decide (path = reversedParts d0)).
      * apply elem_of_cons in Hd as [->|Hd].
        -- left. by rewrite decide_True.
        -- right. by exists d.
Qed.

(** The terminal paths of a built trie are the reversed label sequences of
    the inserted domains. *)
Lemma terminalAt_fromDomains domains path :
  terminalAt (root (fromDomains domains)) path = true <->
  exists d, d ∈ domains /\ path = reversedParts d.
Proof.
  unfold fromDomains. rewrite terminalAt_foldl_insert.
  cbn [root empty]. rewrite terminalAt_freshNode.
  split; [intros [?|?]; done|by right].
Qed.

Lemma root_fromDomains_not_end domains :
  isEnd (root (fromDomains domains)) = false.
Proof.
  destruct (isEnd (root (fromDomains domains))) eqn:E; [|done].
  assert (terminalAt (root (fromDomains domains)) [] = true) as H by done.
  apply terminalAt_fromDomains in H as (d & _ & H).
  symmetry in H. by apply reversedParts_nonempty in H.
Qed.

(** One starting offset: the walk succeeds when some nonempty prefix of the
    remaining parts is a terminal path. *)
Lemma matchFrom_spec parts : forall node,
  isEnd node = false ->
  matchFrom node parts = true <->
  exists p rest, p <> [] /\ parts = p ++ rest /\ terminalAt node p = true.
Proof.
  induction parts as [|x parts IH]; intros node Hend; simpl.
  - rewrite Hend. split; [done|].
    intros (p & rest & Hp & Happ & _). by destruct p.
  - destruct (children node !! x) as [child|] eqn:Hx.
    + destruct (isEnd child) eqn:Hc.
      * split; [intros _|done]. exists [x], parts.
        split; [done|]. split; [done|].
        rewrite terminalAt_cons, Hx. done.
      * rewrite (IH child Hc). split.
        -- intros (p & rest & Hp & -> & Ht). exists (x :: p), rest.
           split; [done|]. split; [done|]. by rewrite terminalAt_cons, Hx.
        -- intros (p & rest & Hp & Happ & Ht).
           destruct p as [|y p]; [done|]. simpl in Happ.
           injection Happ as <- ->.
           rewrite terminalAt_cons, Hx in Ht.
           exists p, rest. split; [|done].
           intros ->. unfold terminalAt in Ht. simpl in Ht. congruence.
    + rewrite Hend. split; [done|].
      intros (p & rest & Hp & Happ & Ht).
      destruct p as [|y p]; [done|]. simpl in Happ. injection Happ as <- ->.
      by rewrite terminalAt_cons, Hx in Ht.
Qed.

(** [hasDomain] on a built trie, in terms of the reversed parts. *)
Lemma hasDomain_reversed domains q :
  hasDomain (fromDomains domains) q = true <->
  exists d, d ∈ domains /\ contiguousBlock (reversedParts d) (reversedParts q).
Proof.
  unfold hasDomain. cbv zeta. rewrite existsb_exists.
  pose proof (root_fromDomains_not_end domains) as Hroot.
  split.
  - intros (start & _ & Hm).
    apply (matchFrom_spec _ _ Hroot) in Hm as (p & rest & _ & Hdrop & Ht).
    apply terminalAt_fromDomains in Ht as (d & Hd & ->).
    exists d. split; [done|].
    exists (take start (reversedParts q)), rest.
    by rewrite <- Hdrop, take_drop.
  - intros (d & Hd & before & after & Hq).
    exists (length before). split.
    + apply in_seq. rewrite Hq, !length_app.
      pose proof (reversedParts_nonempty d).
      destruct (reversedParts d); [done|]. simpl. lia.
    + apply (matchFrom_spec _ _ Hroot).
      exists (reversedParts d), after.
      split; [apply reversedParts_nonempty|].
      split; [by rewrite Hq, drop_app_length|].
      apply terminalAt_fromDomains. by exists d.
Qed.

Lemma contiguousBlock_rev {A} (b l : list A) :
  contiguousBlock (rev b) (rev l) <-> contiguousBlock b l.
Proof.
  split; intros (before & after & H).
  - exists (rev after), (rev before).
    apply (f_equal (@rev A)) in H.
    rewrite rev_involutive, !rev_app_distr, rev_involutive in H.
    by rewrite H, app_assoc.
  - exists (rev after), (rev before).
    by rewrite H, !rev_app_distr, app_assoc.
Qed.

(** [hasDomain] on a built trie, in terms of the labels. *)
Lemma hasDomain_labels domains q :
  hasDomain (fromDomains domains) q = true <->
  exists d, d ∈ domains /\ contiguousBlock (labels d) (labels q).
Proof.
  rewrite hasDomain_reversed. unfold reversedParts.
  by setoid_rewrite contiguousBlock_rev.
Qed.

Lemma insert_lower d trie : insert (JS.toLowerCase d) trie = insert d trie.
Proof. unfold insert, reversedParts. by rewrite toLowerCase_idem. Qed.

Lemma fromDomains_lower domains :
  fromDomains (map JS.toLowerCase domains) = fromDomains domains.
Proof.
  unfold fromDomains. generalize empty.
  induction domains as [|d ds IH]; intros trie; simpl; [done|].
  by rewrite insert_lower, IH.
Qed.

Lemma hasDomain_lower trie q :
  hasDomain trie (JS.toLowerCase q) = hasDomain trie q.
Proof. unfold hasDomain, reversedParts. by rewrite toLowerCase_idem. Qed.

End TrieFacts.

(** ** Claims about the index *)

Section IndexClaims.
Import DomainTrie.

(** C7. On an index built from [domains], [hasDomain q] returns true if and
    only if the (lowercased) label sequence of some inserted domain occurs
    as a contiguous block anywhere within the (lowercased) label sequence
    of [q]; with ["example.com"] inserted this makes
    [hasDomain "example.com.evil"] true. *)
Theorem hasDomain_iff_contiguous_block :
  (forall domains q,
     hasDomain (fromDomains domains) q = true <->
     exists d, d ∈ domains /\ contiguousBlock (labels d) (labels q))
  /\ hasDomain (fromDomains ["example.com"]) "example.com.evil" = true.
Proof.
  split; [exact hasDomain_labels|].
  apply hasDomain_labels. exists "example.com". split; [left|].
  exists [], ["evil"]. reflexivity.
Qed.

(** C3. For every inserted domain [D] and every prefix [P] (empty or not,
    one label or several), [hasDomain (P + "." + D)] is true. *)
Theorem hasDomain_subdomain_closure domains D P :
  D ∈ domains ->
  hasDomain (fromDomains domains) (P +:+ String "." D) = true.
Proof.
  intros HD. apply hasDomain_labels. exists D. split; [done|].
  exists (labels P), []. by rewrite labels_prepend, app_nil_r.
Qed.

Lemma hasDomain_subdomain_closure_witness :
  "example.com" ∈ ["test.org"; "example.com"] /\
  hasDomain (fromDomains ["test.org"; "example.com"])
            ("mail.sub" +:+ String "." "example.com") = true.
Proof.
  assert ("example.com" ∈ ["test.org"; "example.com"]) as H
    by (right; left).
  split; [exact H|].
  exact (hasDomain_subdomain_closure _ "example.com" "mail.sub" H).
Defined.

(** C10. Strings that differ only in letter case are interchangeable, both
    as inserted domains and as queries: [hasDomain] gives the same
    answer. *)
Theorem hasDomain_case_invariant domains1 domains2 q1 q2 :
  Forall2 caseVariant domains1 domains2 ->
  caseVariant q1 q2 ->
  hasDomain (fromDomains domains1) q1 = hasDomain (fromDomains domains2) q2.
Proof.
  intros Hds Hq.
  rewrite <- (fromDomains_lower domains1), <- (fromDomains_lower domains2).
  rewrite <- (hasDomain_lower _ q1), <- (hasDomain_lower _ q2).
  rewrite (caseVariant_lower _ _ Hq). f_equal. f_equal.
  induction Hds as [|d1 d2 ds1 ds2 Hd _ IH]; simpl; [done|].
  by rewrite (caseVariant_lower _ _ Hd), IH.
Qed.

Lemma hasDomain_case_invariant_witness :
  Forall2 caseVariant ["Example.COM"] ["example.com"] /\
  caseVariant "ExAmPlE.CoM" "example.com" /\
  hasDomain (fromDomains ["Example.COM"]) "ExAmPlE.CoM" =
  hasDomain (fromDomains ["example.com"]) "example.com".
Proof.
  assert (Forall2 caseVariant ["Example.COM"] ["example.com"]) as H1.
  { constructor; [|constructor].
    exact (caseVariant_toLowerCase "Example.COM"). }
  assert (caseVariant "ExAmPlE.CoM" "example.com") as H2.
  { exact (caseVariant_toLowerCase "ExAmPlE.CoM"). }
  split; [exact H1|]. split; [exact H2|].
  exact (hasDomain_case_invariant _ _ _ _ H1 H2).
Defined.

(** C1, at the input where the code departs from it.  With only
    ["example.com"] inserted the three queries of the claim are rejected,
    but ["example.com.evil"], of which ["example.com"] is neither the whole
    nor an ancestor, is accepted; so it is not the case that every query
    without an inserted domain as label suffix is rejected. *)
Theorem hasDomain_accepts_non_suffix :
  let index := fromDomains ["example.com"] in
  hasDomain index "example" = false /\
  hasDomain index "com" = false /\
  hasDomain index "notexample.com" = false /\
  ~ labelSuffix "example.com" "example.com.evil" /\
  hasDomain index "example.com.evil" = true /\
  ~ (forall domains q,
       (forall d, d ∈ domains -> ~ labelSuffix d q) ->
       hasDomain (fromDomains domains) q = false).
Proof.
  assert (~ labelSuffix "example.com" "example.com.evil") as Hns.
  { intros [before H]. vm_compute in H.
    apply (f_equal (@rev string)) in H. rewrite rev_app_distr in H.
    discriminate H. }
  cbv zeta. repeat split; try (vm_compute; reflexivity); [done|].
  intros H. specialize (H ["example.com"] "example.com.evil").
  assert (hasDomain (fromDomains ["example.com"]) "example.com.evil" = true)
    as Ht by (vm_compute; reflexivity).
  rewrite H in Ht; [discriminate Ht|].
  intros d ->%list_elem_of_singleton. exact Hns.
Qed.

End IndexClaims.

(** ** The recency cache *)

Section CacheFacts.

Lemma get_set_eq {V} k (v : V) m : JSMap.get k (JSMap.set k v m) = Some v.
Proof.
  induction m as [|[k' v'] m IH]; simpl.
  - by rewrite String.eqb_refl.
  - destruct (String.eqb k' k) eqn:E; simpl; by rewrite E.
Qed.

Lemma size_set_le {V} k (v : V) m :
  JSMap.size (JSMap.set k v m) <= S (JSMap.size m).
Proof.
  unfold JSMap.size. induction m as [|[k' v'] m IH]; simpl; [lia|].
  destruct (String.eqb k' k); simpl; lia.
Qed.

Lemma size_set_ge {V} k (v : V) m :
  JSMap.size m <= JSMap.size (JSMap.set k v m).
Proof.
  unfold JSMap.size. induction m as [|[k' v'] m IH]; simpl; [lia|].
  destruct (String.eqb k' k); simpl; lia.
Qed.

(** What [cacheResult] does at and below capacity. *)
Lemma cacheResult_below domain result cache :
  JSMap.size cache < Guard.MAX_CACHE_SIZE ->
  Guard.cacheResult domain result cache = JSMap.set domain result cache.
Proof.
  intros H. unfold Guard.cacheResult.
  destruct (Guard.MAX_CACHE_SIZE <=? JSMap.size cache) eqn:E; [|done].
  apply Nat.leb_le in E. lia.
Qed.

Lemma cacheResult_full domain result k v rest :
  Guard.MAX_CACHE_SIZE <= JSMap.size ((k, v) :: rest) ->
  Guard.cacheResult domain result ((k, v) :: rest) = JSMap.set domain result rest.
Proof.
  intros H. unfold Guard.cacheResult.
  destruct (Guard.MAX_CACHE_SIZE <=? JSMap.size ((k, v) :: rest)) eqn:E.
  - cbn [JSMap.firstKey JSMap.delete]. by rewrite String.eqb_refl.
  - apply Nat.leb_gt in E. lia.
Qed.

Lemma cacheResult_bound domain result cache :
  JSMap.size cache <= Guard.MAX_CACHE_SIZE ->
  JSMap.size (Guard.cacheResult domain result cache) <= Guard.MAX_CACHE_SIZE.
Proof.
  intros H.
  destruct (decide (JSMap.size cache < Guard.MAX_CACHE_SIZE)) as [Hlt|Hge].
  - rewrite cacheResult_below by done.
    pose proof (size_set_le domain result cache). lia.
  - destruct cache as [|[k v] rest].
    + unfold JSMap.size, Guard.MAX_CACHE_SIZE in *. simpl in Hge. lia.
    + rewrite cacheResult_full by lia.
      pose proof (size_set_le domain result rest).
      unfold JSMap.size in *. cbn [length] in H. lia.
Qed.

Lemma get_cacheResult domain result cache :
  JSMap.get domain (Guard.cacheResult domain result cache) = Some result.
Proof. unfold Guard.cacheResult. apply get_set_eq. Qed.

End CacheFacts.

(** ** The classifier *)

Section GuardFacts.
Import Guard.

Lemma autoInitialize_built st set trie :
  TEMP_EMAIL_DOMAINS_SET st = Some set ->
  TEMP_EMAIL_DOMAINS_TRIE st = Some trie ->
  autoInitialize st = Some st.
Proof. intros H1 H2. unfold autoInitialize. by rewrite H1, H2. Qed.

Lemma autoInitialize_not_ready st :
  TEMP_EMAIL_DOMAINS_SET st = None \/ TEMP_EMAIL_DOMAINS_TRIE st = None ->
  Loader.getCachedDomains (loader st) = None ->
  autoInitialize st = None.
Proof.
  intros H Hc. unfold autoInitialize. rewrite Hc.
  destruct H as [-> | ->]; [done|].
  by destruct (TEMP_EMAIL_DOMAINS_SET st).
Qed.

(** Whenever [autoInitialize] lets the call continue, both structures are
    there, the cache and the loader are untouched. *)
Lemma autoInitialize_Some st st0 :
  autoInitialize st = Some st0 ->
  (exists set trie,
     TEMP_EMAIL_DOMAINS_SET st0 = Some set /\
     TEMP_EMAIL_DOMAINS_TRIE st0 = Some trie) /\
  DOMAIN_CACHE st0 = DOMAIN_CACHE st /\ loader st0 = loader st.
Proof.
  unfold autoInitialize. intros H.
  destruct (TEMP_EMAIL_DOMAINS_SET st) as [s|] eqn:Hs;
    [destruct (TEMP_EMAIL_DOMAINS_TRIE st) as [t|] eqn:Ht|].
  - injection H as <-. eauto 6.
  - destruct (Loader.getCachedDomains (loader st)); [|done].
    injection H as <-. unfold initializeDomains; simpl. eauto 6.
  - destruct (Loader.getCachedDomains (loader st)); [|done].
    injection H as <-. unfold initializeDomains; simpl. eauto 6.
Qed.

(** The shape of every result of [isTempEmail]: it returns, and the state
    it leaves is the one [autoInitialize] produced, with at most one more
    [cacheResult]. *)
Lemma isTempEmail_shape email st :
  isTempEmail email st = (Return false, st) \/
  exists st0, autoInitialize st = Some st0 /\
    (isTempEmail email st = (Return false, st0) \/
     (exists domain r,
        JSMap.get domain (DOMAIN_CACHE st0) = Some r /\
        isTempEmail email st = (Return r, st0)) \/
     (exists domain r,
        JSMap.get domain (DOMAIN_CACHE st0) = None /\
        isTempEmail email st =
          (Return r, withCache (cacheResult domain r (DOMAIN_CACHE st0)) st0))).
Proof.
  unfold isTempEmail.
  destruct (negb (JS.truthy email)); [by left|].
  destruct (autoInitialize st) as [st0|] eqn:Hauto; [|by left].
  right. exists st0. split; [done|].
  destruct (_ || _); [by left|].
  destruct (negb (JS.truthy _)); [by left|].
  destruct (JSMap.get _ (DOMAIN_CACHE st0)) as [r|] eqn:Hget.
  - right; left. eauto.
  - right; right.
    apply autoInitialize_Some in Hauto as [(s & t & -> & ->) _]. eauto.
Qed.

Lemma isTempEmail_returns email st :
  exists b, fst (isTempEmail email st) = Return b.
Proof.
  destruct (isTempEmail_shape email st)
    as [->|(st0 & _ & [->|[(d & r & _ & ->)|(d & r & _ & ->)]])]; eauto.
Qed.

Lemma isTempEmail_loader email st :
  loader (snd (isTempEmail email st)) = loader st.
Proof.
  destruct (isTempEmail_shape email st)
    as [->|(st0 & [_ [_ Hl]]%autoInitialize_Some &
            [->|[(d & r & _ & ->)|(d & r & _ & ->)]])]; done.
Qed.

Lemma isTempEmail_cache_bound email st :
  JSMap.size (DOMAIN_CACHE st) <= MAX_CACHE_SIZE ->
  JSMap.size (DOMAIN_CACHE (snd (isTempEmail email st))) <= MAX_CACHE_SIZE.
Proof.
  intros Hb.
  destruct (isTempEmail_shape email st)
    as [->|(st0 & [_ [Hc _]]%autoInitialize_Some &
            [->|[(d & r & _ & ->)|(d & r & _ & ->)]])];
    cbn [snd withCache DOMAIN_CACHE]; rewrite ?Hc; try done.
  by apply cacheResult_bound.
Qed.

(** On a built state [isTempEmail] leaves everything but the cache alone. *)
Lemma isTempEmail_built_frame email st set trie :
  TEMP_EMAIL_DOMAINS_SET st = Some set ->
  TEMP_EMAIL_DOMAINS_TRIE st = Some trie ->
  let st' := snd (isTempEmail email st) in
  TEMP_EMAIL_DOMAINS_SET st' = Some set /\
  TEMP_EMAIL_DOMAINS_TRIE st' = Some trie /\
  TEMP_EMAIL_DOMAINS_ARRAY st' = TEMP_EMAIL_DOMAINS_ARRAY st /\
  loader st' = loader st.
Proof.
  intros Hs Ht. cbv zeta.
  pose proof (autoInitialize_built st set trie Hs Ht) as Hauto.
  destruct (isTempEmail_shape email st)
    as [->|(st0 & Hauto' & [->|[(d & r & _ & ->)|(d & r & _ & ->)]])];
    [done|..]; rewrite Hauto in Hauto'; injection Hauto' as <-; done.
Qed.

(** [isTempEmail] on a built state, step by step. *)
Lemma isTempEmail_built email st set trie :
  TEMP_EMAIL_DOMAINS_SET st = Some set ->
  TEMP_EMAIL_DOMAINS_TRIE st = Some trie ->
  isTempEmail email st =
  if negb (JS.truthy email) then (Return false, st)
  else if noDomainPart email then (Return false, st)
  else if negb (JS.truthy (emailDomain email)) then (Return false, st)
  else match JSMap.get (emailDomain email) (DOMAIN_CACHE st) with
       | Some cachedResult => (Return cachedResult, st)
       | None =>
           (Return (lookupVerdict set trie (emailDomain email)),
            withCache (cacheResult (emailDomain email)
                         (lookupVerdict set trie (emailDomain email))
                         (DOMAIN_CACHE st)) st)
       end.
Proof.
  intros Hs Ht. unfold isTempEmail.
  rewrite (autoInitialize_built st set trie Hs Ht), Hs, Ht.
  reflexivity.
Qed.

Lemma validateEmail_loader email st :
  loader (snd (validateEmail email st)) = loader st.
Proof.
  unfold validateEmail.
  destruct (negb (JS.truthy email)); [done|].
  destruct (negb _); [done|].
  pose proof (isTempEmail_loader email st) as H.
  by destruct (isTempEmail email st) as [[b|e] st'].
Qed.

Lemma validateEmail_cache_bound email st :
  JSMap.size (DOMAIN_CACHE st) <= MAX_CACHE_SIZE ->
  JSMap.size (DOMAIN_CACHE (snd (validateEmail email st))) <= MAX_CACHE_SIZE.
Proof.
  intros Hb. unfold validateEmail.
  destruct (negb (JS.truthy email)); [done|].
  destruct (negb _); [done|].
  pose proof (isTempEmail_cache_bound email st Hb) as H.
  by destruct (isTempEmail email st) as [[b|e] st'].
Qed.

Lemma ensureDomainsLoaded_cache env st :
  DOMAIN_CACHE (snd (ensureDomainsLoaded env st)) = DOMAIN_CACHE st.
Proof.
  unfold ensureDomainsLoaded.
  destruct (Loader.isDomainsLoaded (loader st)); [done|].
  destruct (Loader.loadDomains env (loader st)) as [[domains|e] l']; [|done].
  cbn [withLoader TEMP_EMAIL_DOMAINS_SET].
  by destruct (TEMP_EMAIL_DOMAINS_SET st).
Qed.

Lemma step_cache_bound st c :
  JSMap.size (DOMAIN_CACHE st) <= MAX_CACHE_SIZE ->
  JSMap.size (DOMAIN_CACHE (Run.step st c)) <= MAX_CACHE_SIZE.
Proof.
  intros Hb. destruct c; cbn [Run.step].
  - by apply isTempEmail_cache_bound.
  - by apply validateEmail_cache_bound.
  - unfold initialize. by rewrite ensureDomainsLoaded_cache.
  - unfold JSMap.size. simpl. lia.
  - done.
  - done.
Qed.

End GuardFacts.

(** ** Claims about the cache, the classifier state and initialization *)

Section StateClaims.
Import Guard.

Lemma set_fresh_key {V} k (v : V) m :
  JSMap.get k m = None -> JSMap.set k v m = m ++ [(k, v)].
Proof.
  induction m as [|[k' v'] m IH]; simpl; [done|].
  destruct (String.eqb k' k); [done|]. intros H. by rewrite IH.
Qed.

Lemma run_snoc calls c : Run.run (calls ++ [c]) = Run.step (Run.run calls) c.
Proof. unfold Run.run. by rewrite foldl_app. Qed.

(** C6. The recency cache never holds more than [MAX_CACHE_SIZE = 1000]
    entries, after any sequence of calls of the module and after any
    sequence of lookups and puts on an empty cache; a put at capacity
    removes exactly the first (oldest-inserted) entry and then inserts into
    what is left, a new key going last. *)
Theorem cache_bounded_and_fifo :
  MAX_CACHE_SIZE = 1000 /\
  (forall calls,
     JSMap.size (DOMAIN_CACHE (Run.run calls)) <= MAX_CACHE_SIZE) /\
  (forall ops,
     JSMap.size (foldl Run.applyCacheOp [] ops) <= MAX_CACHE_SIZE) /\
  (forall cache domain result,
     JSMap.size cache = MAX_CACHE_SIZE ->
     exists oldest rest,
       cache = oldest :: rest /\
       cacheResult domain result cache = JSMap.set domain result rest /\
       (JSMap.get domain cache = None ->
        cacheResult domain result cache = rest ++ [(domain, result)])).
Proof.
  split; [reflexivity|]. split; [|split].
  - intros calls. induction calls as [|c calls IH] using rev_ind.
    + unfold Run.run, JSMap.size, MAX_CACHE_SIZE. simpl. lia.
    + rewrite run_snoc. by apply step_cache_bound.
  - intros ops. induction ops as [|op ops IH] using rev_ind.
    + unfold JSMap.size, MAX_CACHE_SIZE. simpl. lia.
    + rewrite foldl_app. cbn [foldl]. destruct op; cbn [Run.applyCacheOp].
      * done.
      * by apply cacheResult_bound.
  - intros cache domain result Hsize.
    destruct cache as [|[k v] rest].
    + unfold JSMap.size, MAX_CACHE_SIZE in Hsize. simpl in Hsize. lia.
    + exists (k, v), rest. split; [done|].
      assert (cacheResult domain result ((k, v) :: rest)
              = JSMap.set domain result rest) as Heq
        by (apply cacheResult_full; lia).
      split; [done|]. intros Hget. rewrite Heq.
      apply set_fresh_key. cbn [JSMap.get] in Hget.
      by destruct (String.eqb k domain).
Qed.

Lemma cache_bounded_and_fifo_witness :
  JSMap.size Run.fullCache = MAX_CACHE_SIZE /\
  exists oldest rest,
    Run.fullCache = oldest :: rest /\
    cacheResult "new.example" true Run.fullCache
      = JSMap.set "new.example" true rest /\
    (JSMap.get "new.example" Run.fullCache = None ->
     cacheResult "new.example" true Run.fullCache
       = rest ++ [("new.example", true)]).
Proof.
  assert (JSMap.size Run.fullCache = MAX_CACHE_SIZE) as H
    by (vm_compute; reflexivity).
  split; [exact H|].
  exact (proj2 (proj2 (proj2 cache_bounded_and_fifo))
           Run.fullCache "new.example" true H).
Defined.

(** C5, as the code has it.  When the structures are not built and the
    loader holds no cached list, [isTempEmail] returns false for every
    input, does not throw and changes nothing. *)
Theorem isTempEmail_not_ready st email :
  TEMP_EMAIL_DOMAINS_SET st = None \/ TEMP_EMAIL_DOMAINS_TRIE st = None ->
  Loader.getCachedDomains (loader st) = None ->
  isTempEmail email st = (Return false, st).
Proof.
  intros Hnb Hc. unfold isTempEmail.
  rewrite (autoInitialize_not_ready st Hnb Hc).
  by destruct (negb (JS.truthy email)).
Qed.

Lemma isTempEmail_not_ready_witness :
  isTempEmail "user@0-180.com" initial = (Return false, initial).
Proof.
  exact (isTempEmail_not_ready initial "user@0-180.com"
           (or_introl eq_refl) eq_refl).
Defined.

(** C5 as stated fails: with neither structure built but a list already
    cached by the loader, [isTempEmail] builds them on the spot and
    answers true. *)
Lemma isTempEmail_not_built_counterexample :
  ~ (forall st email,
       TEMP_EMAIL_DOMAINS_SET st = None ->
       TEMP_EMAIL_DOMAINS_TRIE st = None ->
       fst (isTempEmail email st) = Return false).
Proof.
  intros H.
  specialize (H (Run.run [Run.LoadDomains
                            {| Loader.localFiles := [Some ["0-180.com"]];
                               Loader.sources := [] |}])
                "user@0-180.com" eq_refl eq_refl).
  vm_compute in H. discriminate H.
Qed.

(** C8. On a built state, two consecutive calls of [isTempEmail] with the
    same email return the same verdict (and do return), and after each of
    them the set, the trie, the domain array and the loader are what they
    were: only [DOMAIN_CACHE] may differ. *)
Theorem isTempEmail_repeatable st email set trie :
  TEMP_EMAIL_DOMAINS_SET st = Some set ->
  TEMP_EMAIL_DOMAINS_TRIE st = Some trie ->
  let first := isTempEmail email st in
  let second := isTempEmail email (snd first) in
  fst second = fst first /\
  (exists verdict, fst first = Return verdict) /\
  (TEMP_EMAIL_DOMAINS_SET (snd first) = Some set /\
   TEMP_EMAIL_DOMAINS_TRIE (snd first) = Some trie /\
   TEMP_EMAIL_DOMAINS_ARRAY (snd first) = TEMP_EMAIL_DOMAINS_ARRAY st /\
   loader (snd first) = loader st) /\
  (TEMP_EMAIL_DOMAINS_SET (snd second) = Some set /\
   TEMP_EMAIL_DOMAINS_TRIE (snd second) = Some trie /\
   TEMP_EMAIL_DOMAINS_ARRAY (snd second) = TEMP_EMAIL_DOMAINS_ARRAY st /\
   loader (snd second) = loader st).
Proof.
  intros Hs Ht. cbv zeta.
  pose proof (isTempEmail_built_frame email st set trie Hs Ht) as Hf1.
  cbv zeta in Hf1. destruct Hf1 as (Hs1 & Ht1 & Ha1 & Hl1).
  pose proof (isTempEmail_built_frame email _ set trie Hs1 Ht1) as Hf2.
  cbv zeta in Hf2. destruct Hf2 as (Hs2 & Ht2 & Ha2 & Hl2).
  split; [|split; [apply isTempEmail_returns|split]].
  - rewrite (isTempEmail_built email _ set trie Hs1 Ht1).
    rewrite (isTempEmail_built email st set trie Hs Ht).
    destruct (negb (JS.truthy email)); [done|].
    destruct (noDomainPart email); [done|].
    destruct (negb (JS.truthy (emailDomain email))); [done|].
    destruct (JSMap.get (emailDomain email) (DOMAIN_CACHE st)) eqn:Hget;
      cbn [snd fst withCache DOMAIN_CACHE].
    + by rewrite Hget.
    + by rewrite get_cacheResult.
  - done.
  - repeat split; [done|done|congruence|congruence].
Qed.

Lemma isTempEmail_repeatable_witness :
  let st := initializeDomains ["0-180.com"] initial in
  fst (isTempEmail "user@sub.0-180.com" (snd (isTempEmail "user@sub.0-180.com" st)))
  = fst (isTempEmail "user@sub.0-180.com" st).
Proof.
  exact (proj1 (isTempEmail_repeatable
                  (initializeDomains ["0-180.com"] initial)
                  "user@sub.0-180.com" _ _ eq_refl eq_refl)).
Defined.

End StateClaims.

(** ** The loader and initialization *)

Section LoaderFacts.
Import Guard.

Lemma fetchDomains_cases srcs :
  (Loader.merged srcs = [] /\
   Loader.fetchDomains srcs = Throw Loader.noDomainsMessage) \/
  (Loader.merged srcs <> [] /\
   Loader.fetchDomains srcs = Return (Loader.merged srcs)).
Proof.
  unfold Loader.fetchDomains. cbv zeta.
  destruct (Loader.merged srcs) as [|d ds]; [by left|by right].
Qed.

(** A load started from scratch hands over [supplied env], or throws when
    that sequence is empty. *)
Lemma loadDomains_fresh env l :
  Loader.cachedDomains l = None ->
  Loader.loadPromise l = None ->
  (Loader.supplied env = [] /\
   Loader.loadDomains env l =
     (Throw Loader.noDomainsMessage,
      {| Loader.cachedDomains := None;
         Loader.loadPromise := Some (Throw Loader.noDomainsMessage) |})) \/
  (Loader.supplied env <> [] /\
   Loader.loadDomains env l =
     (Return (Loader.supplied env),
      {| Loader.cachedDomains := Some (Loader.supplied env);
         Loader.loadPromise := Some (Return (Loader.supplied env)) |})).
Proof.
  intros Hc Hp. unfold Loader.loadDomains, Loader.supplied. rewrite Hc, Hp.
  destruct (Loader.loadDomainsFromFile (Loader.localFiles env)) as [[|d ds]|].
  - destruct (fetchDomains_cases (Loader.sources env)) as [[H ->]|[H ->]];
      [left|right]; by rewrite ?H.
  - by right.
  - destruct (fetchDomains_cases (Loader.sources env)) as [[H ->]|[H ->]];
      [left|right]; by rewrite ?H.
Qed.

Lemma supplied_without_file env :
  Loader.loadDomainsFromFile (Loader.localFiles env) = None ->
  Loader.supplied env = Loader.merged (Loader.sources env).
Proof. intros H. unfold Loader.supplied. by rewrite H. Qed.

End LoaderFacts.

Section InitializeClaim.
Import Guard.




End InitializeClaim.

(** ** The scenarios of the specification, run on the model *)

Section Scenarios.
Import Guard.

Example supplied_example :
  Loader.supplied Run.testEnv = ["0-180.com"; "0-mail.com"].
Proof. vm_compute. reflexivity. Qed.

Example initialize_example :
  fst (initialize Run.testEnv initial) = Return () /\
  getTempEmailDomains (snd (initialize Run.testEnv initial))
  = ["0-180.com"; "0-mail.com"].
Proof. vm_compute. split; reflexivity. Qed.

Example initialize_empty_example :
  fst (initialize {| Loader.localFiles := []; Loader.sources := [[]; ["x"]] |}
                  initial)
  = Throw "No domains could be loaded from any source".
Proof. vm_compute. reflexivity. Qed.

Example validate_flagged_example :
  fst (validateEmail "user@0-180.com" (Run.run [Run.Initialize Run.testEnv]))
  = Return {| ValidationResult.isValid := true;
              ValidationResult.isTempEmail := true;
              ValidationResult.error :=
                Some "Email is from a temporary email service" |}.
Proof. vm_compute. reflexivity. Qed.

Example validate_clean_example :
  fst (validateEmail "user@gmail.com" (Run.run [Run.Initialize Run.testEnv]))
  = Return {| ValidationResult.isValid := true;
              ValidationResult.isTempEmail := false;
              ValidationResult.error := None |}.
Proof. vm_compute. reflexivity. Qed.

Example validate_malformed_example :
  fst (validateEmail "not-an-email" (Run.run [Run.Initialize Run.testEnv]))
  = Return invalidFormat /\
  fst (validateEmail EmptyString (Run.run [Run.Initialize Run.testEnv]))
  = Return invalidInput.
Proof. vm_compute. split; reflexivity. Qed.

Example isTempEmail_subdomain_example :
  fst (isTempEmail "User@Sub.0-180.COM " (Run.run [Run.Initialize Run.testEnv]))
  = Return true /\
  fst (isTempEmail "user@sub.0-180.com" initial) = Return false.
Proof. vm_compute. split; reflexivity. Qed.

Example isValidDomain_examples :
  map Loader.isValidDomain
      ["example.com"; "a-.com"; ".com"; "no dot"; "x.y"; "sub.Example.org"]
  = [true; false; false; false; false; true].
Proof. vm_compute. reflexivity. Qed.

Example hasDomain_examples :
  map (DomainTrie.hasDomain (DomainTrie.fromDomains ["Example.COM"]))
      ["example.com"; "EXAMPLE.COM"; "a.b.example.com"; "example"; "com";
       "notexample.com"; EmptyString]
  = [true; true; true; false; false; false; false].
Proof. vm_compute. reflexivity. Qed.

(** The set stores the strings as they are supplied: a sequence that is not
    in canonical form (the loader never supplies one) would leave the
    lowercased domain out of the set, while the trie still finds it. *)
Example set_keeps_case :
  ("example.com" ∉ (list_to_set ["Example.COM"] : gset string)) /\
  DomainTrie.hasDomain (DomainTrie.fromDomains ["Example.COM"]) "example.com"
  = true.
Proof.
  split; [|vm_compute; reflexivity].
  intros H%elem_of_list_to_set%list_elem_of_singleton. discriminate H.
Qed.

End Scenarios.

(** ** Regular expressions: [test] decides the language *)

Section RegexFacts.
Import Regex.

Lemma append_nil_l s : EmptyString +:+ s = s.
Proof. reflexivity. Qed.

Lemma append_cons c s t : String c s +:+ t = String c (s +:+ t).
Proof. reflexivity. Qed.

Lemma append_nil_r s : s +:+ EmptyString = s.
Proof.
  induction s as [|c s IH]; [done|]. by rewrite append_cons, IH.
Qed.

Lemma append_assoc s1 s2 s3 : (s1 +:+ s2) +:+ s3 = s1 +:+ (s2 +:+ s3).
Proof.
  induction s1 as [|c s1 IH]; [done|]. by rewrite !append_cons, IH.
Qed.

Lemma append_eq_nil s1 s2 : s1 +:+ s2 = EmptyString -> s1 = EmptyString /\ s2 = EmptyString.
Proof. destruct s1; [done|]. rewrite append_cons. discriminate. Qed.

Lemma Matches_cat_inv r1 r2 s :
  Matches (Cat r1 r2) s ->
  exists s1 s2, s = s1 +:+ s2 /\ Matches r1 s1 /\ Matches r2 s2.
Proof. inversion 1; subst; eauto. Qed.

Lemma Matches_alt_inv r1 r2 s :
  Matches (Alt r1 r2) s -> Matches r1 s \/ Matches r2 s.
Proof. inversion 1; subst; eauto. Qed.

Lemma Matches_cls_inv p s :
  Matches (Cls p) s -> exists c, s = String c EmptyString /\ p c = true.
Proof. inversion 1; subst; eauto. Qed.

Lemma Matches_void_inv s : ~ Matches Void s.
Proof. inversion 1. Qed.

Lemma Matches_eps_inv s : Matches Eps s -> s = EmptyString.
Proof. by inversion 1. Qed.

Lemma nullable_spec r : nullable r = true <-> Matches r EmptyString.
Proof.
  induction r as [| |p|r1 IH1 r2 IH2|r1 IH1 r2 IH2|r IH]; simpl.
  - split; [done|]. intros H. by apply Matches_void_inv in H.
  - split; [constructor|done].
  - split; [done|]. intros (c & H & _)%Matches_cls_inv. discriminate.
  - rewrite andb_true_iff, IH1, IH2. split.
    + intros [H1 H2]. exact (Matches_cat _ _ _ _ H1 H2).
    + intros (s1 & s2 & Hs & H1 & H2)%Matches_cat_inv.
      symmetry in Hs. apply append_eq_nil in Hs as [-> ->]. done.
  - rewrite orb_true_iff, IH1, IH2. split.
    + intros [H|H]; [by apply Matches_alt_l|by apply Matches_alt_r].
    + apply Matches_alt_inv.
  - split; [constructor|done].
Qed.

Lemma cat_spec r1 r2 s : Matches (cat r1 r2) s <-> Matches (Cat r1 r2) s.
Proof.
  assert (forall r, Matches (Cat Void r) s <-> Matches Void s) as HvL.
  { intros r. split; [|intros H; by apply Matches_void_inv in H].
    intros (s1 & s2 & _ & H & _)%Matches_cat_inv.
    by apply Matches_void_inv in H. }
  assert (forall r, Matches (Cat r Void) s <-> Matches Void s) as HvR.
  { intros r. split; [|intros H; by apply Matches_void_inv in H].
    intros (s1 & s2 & _ & _ & H)%Matches_cat_inv.
    by apply Matches_void_inv in H. }
  assert (forall r, Matches (Cat Eps r) s <-> Matches r s) as He.
  { intros r. split.
    - intros (s1 & s2 & -> & ->%Matches_eps_inv & H)%Matches_cat_inv. done.
    - intros H. exact (Matches_cat _ _ EmptyString s Matches_eps H). }
  destruct r1, r2; simpl; rewrite ?HvL, ?HvR, ?He; done.
Qed.

Lemma alt_spec r1 r2 s : Matches (alt r1 r2) s <-> Matches (Alt r1 r2) s.
Proof.
  assert (forall r, Matches (Alt Void r) s <-> Matches r s) as HvL.
  { intros r. split; [|by apply Matches_alt_r].
    intros [H|H]%Matches_alt_inv; [by apply Matches_void_inv in H|done]. }
  assert (forall r, Matches (Alt r Void) s <-> Matches r s) as HvR.
  { intros r. split; [|by apply Matches_alt_l].
    intros [H|H]%Matches_alt_inv; [done|by apply Matches_void_inv in H]. }
  destruct r1, r2; simpl; rewrite ?HvL, ?HvR; done.
Qed.

(** A match of [Star r] on a nonempty string starts with a nonempty match
    of [r]. *)
Lemma Matches_star_cons r c s :
  Matches (Star r) (String c s) ->
  exists s1 s2, s = s1 +:+ s2 /\ Matches r (String c s1) /\ Matches (Star r) s2.
Proof.
  intros H. remember (Star r) as r' eqn:Hr. remember (String c s) as w eqn:Hw.
  revert c s Hw.
  induction H as [| | | | | |r0 s1 s2 H1 _ H2 IH2]; try discriminate.
  injection Hr as ->. intros c s Hw.
  destruct s1 as [|c1 s1].
  - rewrite append_nil_l in Hw. by apply IH2.
  - rewrite append_cons in Hw. injection Hw as -> <-. eauto.
Qed.

Lemma deriv_spec c r : forall s,
  Matches (deriv c r) s <-> Matches r (String c s).
Proof.
  induction r as [| |p|r1 IH1 r2 IH2|r1 IH1 r2 IH2|r IH]; intros s; simpl.
  - split; intros H; by apply Matches_void_inv in H.
  - split; intros H; [by apply Matches_void_inv in H|].
    by apply Matches_eps_inv in H.
  - destruct (p c) eqn:Hp.
    + split.
      * intros ->%Matches_eps_inv. by constructor.
      * intros (c' & [= <- ->] & _)%Matches_cls_inv. constructor.
    + split; [intros H; by apply Matches_void_inv in H|].
      intros (c' & [= <- ->] & Hp')%Matches_cls_inv. congruence.
  - assert (Matches (Cat r1 r2) (String c s) <->
            Matches (Cat (deriv c r1) r2) s \/
            (Matches r1 EmptyString /\ Matches r2 (String c s))) as Hcat.
    { split.
      - intros (s1 & s2 & Hs & H1 & H2)%Matches_cat_inv.
        destruct s1 as [|c1 s1].
        + rewrite append_nil_l in Hs. right. by subst s2.
        + rewrite append_cons in Hs. injection Hs as <- ->. left.
          apply Matches_cat; [by apply IH1|done].
      - intros [(s1 & s2 & -> & H1 & H2)%Matches_cat_inv|[H1 H2]].
        + apply IH1 in H1. exact (Matches_cat _ _ _ _ H1 H2).
        + exact (Matches_cat _ _ EmptyString _ H1 H2). }
    rewrite Hcat. destruct (nullable r1) eqn:Hn.
    + rewrite alt_spec. apply nullable_spec in Hn. split.
      * intros [H|H]%Matches_alt_inv; [left; by apply cat_spec|].
        right. split; [done|by apply IH2].
      * intros [H|[_ H]].
        -- apply Matches_alt_l. by apply cat_spec.
        -- apply Matches_alt_r. by apply IH2.
    + rewrite cat_spec. split; [by left|]. intros [H|[H _]]; [done|].
      apply nullable_spec in H. congruence.
  - rewrite alt_spec. split.
    + intros [H|H]%Matches_alt_inv;
        [apply Matches_alt_l; by apply IH1|apply Matches_alt_r; by apply IH2].
    + intros [H|H]%Matches_alt_inv;
        [apply Matches_alt_l; by apply IH1|apply Matches_alt_r; by apply IH2].
  - rewrite cat_spec. split.
    + intros (s1 & s2 & -> & H1 & H2)%Matches_cat_inv.
      apply IH in H1. exact (Matches_star_app _ _ _ H1 H2).
    + intros (s1 & s2 & -> & H1 & H2)%Matches_star_cons.
      apply Matches_cat; [by apply IH|done].
Qed.

(** [test] decides membership in the language. *)
Lemma test_spec s : forall r, test r s = true <-> Matches r s.
Proof.
  induction s as [|c s IH]; intros r; simpl.
  - apply nullable_spec.
  - rewrite IH. apply deriv_spec.
Qed.

End RegexFacts.

(** ** What [EMAIL_REGEX] accepts *)

Section EmailFormat.
Import Regex.

Lemma allChars_app p a b : allChars p (a +:+ b) = allChars p a && allChars p b.
Proof.
  induction a as [|c a IH]; [done|].
  rewrite append_cons. simpl. by rewrite IH, andb_assoc.
Qed.

Lemma truthy_iff s : JS.truthy s = true <-> s <> EmptyString.
Proof. by destruct s. Qed.

Lemma Matches_star_cls p s :
  Matches (Star (Cls p)) s <-> allChars p s = true.
Proof.
  induction s as [|c s IH]; simpl.
  - split; [done|constructor].
  - rewrite andb_true_iff, <- IH. split.
    + intros (s1 & s2 & -> & (c' & [= <- ->] & Hp)%Matches_cls_inv & H2)
               %Matches_star_cons.
      by rewrite append_nil_l.
    + intros [Hp H].
      exact (Matches_star_app _ (String c EmptyString) s (Matches_cls p c Hp) H).
Qed.

Lemma Matches_plus_cls p s :
  Matches (Plus (Cls p)) s <-> s <> EmptyString /\ allChars p s = true.
Proof.
  unfold Plus. split.
  - intros (s1 & s2 & -> & (c & -> & Hp)%Matches_cls_inv & H2)%Matches_cat_inv.
    apply Matches_star_cls in H2. rewrite append_cons, append_nil_l. simpl.
    by rewrite Hp, H2.
  - intros [Hne H]. destruct s as [|c s]; [done|]. simpl in H.
    apply andb_true_iff in H as [Hp H].
    apply (Matches_cat _ _ (String c EmptyString) s); [by constructor|].
    by apply Matches_star_cls.
Qed.

Lemma Matches_chr c s : Matches (Chr c) s <-> s = String c EmptyString.
Proof.
  unfold Chr. split.
  - intros (c' & -> & H%Ascii.eqb_eq)%Matches_cls_inv. by subst.
  - intros ->. constructor. apply Ascii.eqb_refl.
Qed.

Lemma Matches_EMAIL_REGEX s : Matches Guard.EMAIL_REGEX s <-> emailShape s.
Proof.
  unfold Guard.EMAIL_REGEX, emailShape. split.
  - intros (l & s1 & -> & Hl%Matches_plus_cls &
            (at_ & s2 & -> & ->%Matches_chr &
             (a & s3 & -> & Ha%Matches_plus_cls &
              (dot & b & -> & ->%Matches_chr & Hb%Matches_plus_cls)
              %Matches_cat_inv)%Matches_cat_inv)%Matches_cat_inv)
           %Matches_cat_inv.
    exists l, a, b. done.
  - intros (l & a & b & -> & Hl & Ha & Hb).
    apply Matches_cat; [by apply Matches_plus_cls|].
    apply (Matches_cat _ _ (String "@" EmptyString)); [by apply Matches_chr|].
    apply Matches_cat; [by apply Matches_plus_cls|].
    apply (Matches_cat _ _ (String "." EmptyString)); [by apply Matches_chr|].
    by apply Matches_plus_cls.
Qed.

(** [split] with one or two pieces. *)
Lemma split_one sep s d :
  JS.split sep s = [d] ->
  s = d /\ allChars (fun c => negb (Ascii.eqb c sep)) d = true.
Proof.
  revert d. induction s as [|c s IH]; intros d; simpl.
  - by intros [= <-].
  - destruct (Ascii.eqb c sep) eqn:E.
    + intros [= _ H]. by apply split_nonempty in H.
    + destruct (JS.split sep s) as [|w ws] eqn:Hs; [by apply split_nonempty in Hs|].
      intros [= <- ->]. destruct (IH w eq_refl) as [-> Hw].
      simpl. by rewrite E, Hw.
Qed.

Lemma split_no_sep sep s :
  allChars (fun c => negb (Ascii.eqb c sep)) s = true -> JS.split sep s = [s].
Proof.
  induction s as [|c s IH]; simpl; [done|].
  intros [Hc Hs]%andb_true_iff. apply negb_true_iff in Hc.
  by rewrite Hc, (IH Hs).
Qed.

Lemma split_two sep s l d :
  JS.split sep s = [l; d] ->
  s = l +:+ String sep d /\
  allChars (fun c => negb (Ascii.eqb c sep)) l = true /\
  allChars (fun c => negb (Ascii.eqb c sep)) d = true.
Proof.
  revert l. induction s as [|c s IH]; intros l; simpl; [done|].
  destruct (Ascii.eqb c sep) eqn:E.
  - intros [= <- H]. apply Ascii.eqb_eq in E as ->.
    by destruct (split_one _ _ _ H) as [-> Hd].
  - destruct (JS.split sep s) as [|w ws] eqn:Hs; [done|].
    intros [= <- ->]. destruct (IH w eq_refl) as (-> & Hw & Hd).
    rewrite append_cons. simpl. by rewrite E, Hw, Hd.
Qed.

Lemma dotBeforeEnd_spec s :
  dotBeforeEnd s = true <-> exists a b, b <> EmptyString /\ s = a +:+ String "." b.
Proof.
  induction s as [|c s IH]; simpl.
  - split; [done|]. intros (a & b & _ & H). by destruct a.
  - rewrite orb_true_iff, andb_true_iff, IH, truthy_iff. split.
    + intros [[->%Ascii.eqb_eq Hs]|(a & b & Hb & ->)].
      * by exists EmptyString, s.
      * by exists (String c a), b.
    + intros (a & b & Hb & H). destruct a as [|c' a].
      * rewrite append_nil_l in H. injection H as -> ->. by left.
      * rewrite append_cons in H. injection H as -> ->. right. eauto.
Qed.

Lemma innerDot_spec d :
  innerDot d = true <->
  exists a b, a <> EmptyString /\ b <> EmptyString /\ d = a +:+ String "." b.
Proof.
  destruct d as [|c d]; simpl.
  - split; [done|]. intros (a & b & _ & _ & H). by destruct a.
  - rewrite dotBeforeEnd_spec. split.
    + intros (a & b & Hb & ->). by exists (String c a), b.
    + intros (a & b & Ha & Hb & H). destruct a as [|c' a]; [done|].
      rewrite append_cons in H. injection H as -> ->. eauto.
Qed.

Lemma notSpaceAt_split c :
  Guard.notSpaceAt c = negb (JS.isSpace c) && negb (Ascii.eqb c "@").
Proof. unfold Guard.notSpaceAt. apply negb_orb. Qed.

Lemma allChars_notSpaceAt s :
  allChars Guard.notSpaceAt s =
  allChars (fun c => negb (JS.isSpace c)) s
  && allChars (fun c => negb (Ascii.eqb c "@")) s.
Proof.
  induction s as [|c s IH]; simpl; [done|].
  rewrite IH, notSpaceAt_split.
  destruct (negb (JS.isSpace c)), (negb (Ascii.eqb c "@")),
    (allChars (fun c => negb (JS.isSpace c)) s); done.
Qed.

(** [formatCheck] says in plain terms what the regular expression accepts. *)
Lemma formatCheck_shape s : formatCheck s = true <-> emailShape s.
Proof.
  unfold formatCheck, emailShape. split.
  - destruct (JS.split "@" s) as [|l [|d [|? ?]]] eqn:Hsplit; try done.
    apply split_two in Hsplit as (-> & Hl & Hd).
    intros [[Hsp Hne%truthy_iff]%andb_true_iff
              (a & b & Ha & Hb & ->)%innerDot_spec]%andb_true_iff.
    rewrite allChars_app in Hsp. simpl in Hsp.
    rewrite allChars_app in Hsp, Hd. simpl in Hsp, Hd.
    exists l, a, b. rewrite !allChars_notSpaceAt.
    repeat (apply andb_true_iff in Hsp as [? Hsp]
            || apply andb_true_iff in Hd as [? Hd]).
    split; [done|]. repeat split; try done; by apply andb_true_iff.
  - intros (l & a & b & -> & [Hl Hl'] & [Ha Ha'] & [Hb Hb']).
    rewrite allChars_notSpaceAt in Hl', Ha', Hb'.
    apply andb_true_iff in Hl' as [Hl1 Hl2].
    apply andb_true_iff in Ha' as [Ha1 Ha2].
    apply andb_true_iff in Hb' as [Hb1 Hb2].
    rewrite split_app, (split_no_sep _ l Hl2).
    rewrite (split_no_sep _ (a +:+ String "." b)).
    2:{ rewrite allChars_app. simpl. by rewrite Ha2, Hb2. }
    cbn [app]. rewrite !allChars_app. simpl. rewrite allChars_app. simpl.
    rewrite Hl1, Ha1, Hb1. simpl.
    apply andb_true_iff. split; [by apply truthy_iff|].
    apply innerDot_spec. by exists a, b.
Qed.

Lemma test_EMAIL_REGEX s : test Guard.EMAIL_REGEX s = formatCheck s.
Proof.
  apply eq_true_iff_eq.
  by rewrite test_spec, Matches_EMAIL_REGEX, formatCheck_shape.
Qed.

Lemma includes_char_app a c b :
  JS.includes (a +:+ String c b) (String c EmptyString) = true.
Proof.
  induction a as [|c' a IH].
  - rewrite append_nil_l. simpl.
    destruct (ascii_dec c c); [by destruct b|done].
  - rewrite append_cons. simpl. rewrite IH. apply orb_true_r.
Qed.

(** The check of the regular expression is stricter than the check the
    specification words. *)
Lemma formatCheck_specStructuralCheck s :
  formatCheck s = true -> specStructuralCheck s = true.
Proof.
  unfold formatCheck, specStructuralCheck.
  destruct (JS.split "@" s) as [|l [|d [|? ?]]]; try done.
  intros [[_ ->]%andb_true_iff (a & b & Ha & _ & ->)%innerDot_spec]
         %andb_true_iff.
  rewrite includes_char_app. by destruct a.
Qed.

End EmailFormat.

(** ** Claim about [validateEmail] *)

Section ValidateClaim.
Import Guard.

(** C2, as the code has it.  For a nonempty input, [validateEmail] returns
    the "Invalid email format" result exactly when the input fails
    [formatCheck]: exactly one [@], no blank character, a nonempty local
    part, and a domain part with a [.] that has a character on each side.
    An input that passes is reported with [isValid = true]; an input that
    fails leaves the state unchanged. *)
Theorem validateEmail_format email st :
  email <> EmptyString ->
  (fst (validateEmail email st) = Return invalidFormat
   <-> formatCheck email = false) /\
  (formatCheck email = true ->
   exists r, fst (validateEmail email st) = Return r
             /\ ValidationResult.isValid r = true) /\
  (formatCheck email = false -> snd (validateEmail email st) = st).
Proof.
  intros Hne. unfold validateEmail.
  apply truthy_iff in Hne. rewrite Hne. cbn [negb].
  rewrite test_EMAIL_REGEX. destruct (formatCheck email); cbn [negb].
  - destruct (isTempEmail_returns email st) as [b Hb].
    destruct (isTempEmail email st) as [r st']. cbn [fst] in Hb. subst r.
    cbn [fst]. split; [split; [|done]|split; [|done]].
    + unfold invalidFormat. intros H. discriminate H.
    + intros _. eexists. split; [reflexivity|done].
  - cbn [fst snd]. split; [done|]. split; done.
Qed.

Lemma validateEmail_format_witness :
  fst (validateEmail "user@.com" initial) = Return invalidFormat
  <-> formatCheck "user@.com" = false.
Proof.
  assert ("user@.com" <> EmptyString) as H by discriminate.
  exact (proj1 (validateEmail_format "user@.com" initial H)).
Defined.

(** C2 as stated fails: ["user@.com"] has exactly one [@], a nonempty
    local part and a nonempty domain part containing a [.], and is
    rejected with "Invalid email format". *)
Lemma validateEmail_spec_check_counterexample :
  ~ (forall email st,
       email <> EmptyString ->
       (fst (validateEmail email st) = Return invalidFormat
        <-> specStructuralCheck email = false)).
Proof.
  intros H.
  assert ("user@.com" <> EmptyString) as Hne by discriminate.
  destruct (H "user@.com" initial Hne) as [H1 _].
  assert (fst (validateEmail "user@.com" initial) = Return invalidFormat)
    as Hv by (vm_compute; reflexivity).
  specialize (H1 Hv). vm_compute in H1. discriminate H1.
Qed.

End ValidateClaim.

(** ** The loader supplies canonical domains *)

Section SubstringFacts.

Lemma toLowerChar_fixed c : JS.toLowerChar c = c <-> JS.isUpper c = false.
Proof.
  destruct c as [[] [] [] [] [] [] [] []]; vm_compute; split; congruence.
Qed.

Lemma isUpper_toLowerChar c : JS.isUpper (JS.toLowerChar c) = false.
Proof.
  destruct c as [[] [] [] [] [] [] [] []]; vm_compute; reflexivity.
Qed.

Lemma canonical_noUpper s : canonical s <-> noUpper s = true.
Proof.
  unfold canonical, noUpper. induction s as [|c s IH]; simpl; [done|].
  rewrite andb_true_iff, negb_true_iff, <- IH, <- toLowerChar_fixed.
  split; [by intros [= -> ->]|by intros [-> ->]].
Qed.

Lemma noUpper_toLowerCase s : noUpper (JS.toLowerCase s) = true.
Proof.
  unfold noUpper. induction s as [|c s IH]; simpl; [done|].
  by rewrite isUpper_toLowerChar, IH.
Qed.

Context (p : ascii -> bool).

Lemma allChars_trimStart s :
  allChars p s = true -> allChars p (JS.trimStart s) = true.
Proof.
  induction s as [|c s IH]; simpl; [done|].
  intros [Hc Hs]%andb_true_iff.
  destruct (JS.isSpace c); [by apply IH|]. simpl. by rewrite Hc, Hs.
Qed.

Lemma allChars_trimEnd s :
  allChars p s = true -> allChars p (JS.trimEnd s) = true.
Proof.
  induction s as [|c s IH]; simpl; [done|].
  intros [Hc Hs]%andb_true_iff. specialize (IH Hs).
  destruct (JS.trimEnd s) as [|c' r].
  - destruct (JS.isSpace c); simpl; [done|]. by rewrite Hc.
  - simpl in *. by rewrite Hc, IH.
Qed.

Lemma allChars_trim s : allChars p s = true -> allChars p (JS.trim s) = true.
Proof. intros H. by apply allChars_trimStart, allChars_trimEnd. Qed.

Lemma allChars_sliceFrom n : forall s,
  allChars p s = true -> allChars p (JS.sliceFrom n s) = true.
Proof.
  induction n as [|n IH]; intros [|c s]; simpl; try done.
  intros [_ Hs]%andb_true_iff. by apply IH.
Qed.

Lemma allChars_firstPiece sep s :
  allChars p s = true -> allChars p (Loader.firstPiece sep s) = true.
Proof.
  unfold Loader.firstPiece. induction s as [|c s IH]; simpl; [done|].
  intros [Hc Hs]%andb_true_iff. specialize (IH Hs).
  destruct (Ascii.eqb c sep); [done|].
  destruct (JS.split sep s) as [|w ws]; simpl in *; by rewrite Hc, ?IH.
Qed.

Lemma allChars_stripScheme s :
  allChars p s = true -> allChars p (Loader.stripScheme s) = true.
Proof.
  intros H. unfold Loader.stripScheme.
  destruct (JS.startsWith s "https://"); [by apply allChars_sliceFrom|].
  destruct (JS.startsWith s "http://"); [by apply allChars_sliceFrom|done].
Qed.

Lemma allChars_stripWww s :
  allChars p s = true -> allChars p (Loader.stripWww s) = true.
Proof.
  intros H. unfold Loader.stripWww.
  destruct (JS.startsWith s "www."); [by apply allChars_sliceFrom|done].
Qed.

End SubstringFacts.

Section CanonicalSupply.

Lemma canonical_normalizeDomain d : canonical (Loader.normalizeDomain d).
Proof.
  apply canonical_noUpper. unfold Loader.normalizeDomain, noUpper.
  do 3 apply allChars_firstPiece.
  apply allChars_stripWww, allChars_stripScheme, allChars_trim.
  apply noUpper_toLowerCase.
Qed.

Lemma canonical_setAdd acc x :
  Forall canonical acc -> canonical x -> Forall canonical (Loader.setAdd acc x).
Proof.
  intros Hacc Hx. unfold Loader.setAdd.
  destruct (existsb _ acc); [done|].
  apply Forall_app. split; [done|]. by constructor.
Qed.

Lemma canonical_foldl_mergeInto xs : forall acc,
  Forall canonical acc -> Forall canonical (foldl Loader.mergeInto acc xs).
Proof.
  induction xs as [|x xs IH]; intros acc Hacc; simpl; [done|].
  apply IH. unfold Loader.mergeInto.
  destruct (Loader.isValidDomain _); [|done].
  apply canonical_setAdd; [done|apply canonical_normalizeDomain].
Qed.

Lemma canonical_sortedInsert x l :
  canonical x -> Forall canonical l -> Forall canonical (Loader.sortedInsert x l).
Proof.
  intros Hx. induction 1 as [|y l Hy Hl IH]; simpl.
  - by constructor.
  - destruct (String.leb x y); repeat constructor; done.
Qed.

Lemma canonical_sort l : Forall canonical l -> Forall canonical (Loader.sort l).
Proof.
  unfold Loader.sort. induction 1 as [|x l Hx Hl IH]; simpl; [done|].
  by apply canonical_sortedInsert.
Qed.

Lemma canonical_merged srcs : Forall canonical (Loader.merged srcs).
Proof.
  unfold Loader.merged. apply canonical_sort, canonical_foldl_mergeInto.
  constructor.
Qed.

Lemma canonical_cleanFileDomains ds : Forall canonical (Loader.cleanFileDomains ds).
Proof.
  unfold Loader.cleanFileDomains. induction ds as [|d ds IH]; simpl; [done|].
  destruct (JS.truthy _); [|done]. constructor; [|done].
  apply canonical_noUpper. apply allChars_trim, noUpper_toLowerCase.
Qed.

Lemma canonical_loadDomainsFromFile files ds :
  Loader.loadDomainsFromFile files = Some ds -> Forall canonical ds.
Proof.
  induction files as [|[[|d0 ds0]|] files IH]; simpl; try done.
  intros [= <-]. apply canonical_cleanFileDomains.
Qed.

Lemma canonical_supplied env : Forall canonical (Loader.supplied env).
Proof.
  unfold Loader.supplied.
  destruct (Loader.loadDomainsFromFile (Loader.localFiles env)) as [[|d ds]|] eqn:E;
    try apply canonical_merged.
  by apply canonical_loadDomainsFromFile in E.
Qed.

End CanonicalSupply.

(** ** The reachable states *)

Section Reachable.
Import Guard.

Lemma loadDomains_canonical env l :
  loaderCanonical l ->
  loaderCanonical (snd (Loader.loadDomains env l)) /\
  forall ds, fst (Loader.loadDomains env l) = Return ds -> Forall canonical ds.
Proof.
  intros Hl. unfold Loader.loadDomains.
  destruct (Loader.cachedDomains l) as [cached|] eqn:Ec.
  { split; [exact Hl|]. intros ds [= <-]. by apply (proj1 Hl). }
  destruct (Loader.loadPromise l) as [settled|] eqn:Ep.
  { split; [exact Hl|]. cbn [fst]. intros ds ->. by apply (proj2 Hl). }
  pose proof (canonical_supplied env) as Hsup. unfold Loader.supplied in Hsup.
  assert (match Loader.fetchDomains (Loader.sources env) with
          | Return ds => Forall canonical ds
          | Throw _ => True
          end) as Hfetch.
  { destruct (fetchDomains_cases (Loader.sources env)) as [[_ ->]|[_ ->]];
      [done|apply canonical_merged]. }
  destruct (Loader.loadDomainsFromFile (Loader.localFiles env)) as [[|d ds]|].
  - destruct (Loader.fetchDomains (Loader.sources env)) as [ds|e];
      (split; [split|]); simpl; intros ? [= <-] || intros ? [=]; done.
  - (split; [split|]); simpl; intros ? [= <-]; done.
  - destruct (Loader.fetchDomains (Loader.sources env)) as [ds|e];
      (split; [split|]); simpl; intros ? [= <-] || intros ? [=]; done.
Qed.

Lemma builtFrom_initializeDomains domains st :
  Forall canonical domains -> builtFrom (initializeDomains domains st).
Proof. intros H. unfold builtFrom. simpl. done. Qed.

Lemma autoInitialize_invariant st st0 :
  stateInvariant st -> autoInitialize st = Some st0 -> stateInvariant st0.
Proof.
  intros [Hl Hb] H. unfold autoInitialize in H.
  assert (forall cached,
            Loader.getCachedDomains (loader st) = Some cached ->
            stateInvariant (initializeDomains cached st)) as Hinit.
  { intros cached Hc. split; [exact Hl|].
    apply builtFrom_initializeDomains. by apply (proj1 Hl). }
  destruct (TEMP_EMAIL_DOMAINS_SET st) as [s|] eqn:Hs;
    [destruct (TEMP_EMAIL_DOMAINS_TRIE st) as [t|] eqn:Ht|].
  - injection H as <-. by split.
  - destruct (Loader.getCachedDomains (loader st)) eqn:Hc; [|done].
    injection H as <-. by apply Hinit.
  - destruct (Loader.getCachedDomains (loader st)) eqn:Hc; [|done].
    injection H as <-. by apply Hinit.
Qed.

Lemma isTempEmail_invariant email st :
  stateInvariant st -> stateInvariant (snd (isTempEmail email st)).
Proof.
  intros Hinv.
  destruct (isTempEmail_shape email st)
    as [->|(st0 & Hauto & [->|[(d & r & _ & ->)|(d & r & _ & ->)]])];
    [done|..]; apply (autoInitialize_invariant st st0 Hinv) in Hauto; done.
Qed.

Lemma validateEmail_state email st :
  snd (validateEmail email st) = st \/
  snd (validateEmail email st) = snd (isTempEmail email st).
Proof.
  unfold validateEmail.
  destruct (negb (JS.truthy email)); [by left|].
  destruct (negb _); [by left|]. right.
  by destruct (isTempEmail email st) as [[b|e] st'].
Qed.

Lemma ensureDomainsLoaded_invariant env st :
  stateInvariant st -> stateInvariant (snd (ensureDomainsLoaded env st)).
Proof.
  intros [Hl Hb]. unfold ensureDomainsLoaded.
  destruct (Loader.isDomainsLoaded (loader st)); [by split|].
  destruct (loadDomains_canonical env (loader st) Hl) as [Hl' Hr].
  destruct (Loader.loadDomains env (loader st)) as [[domains|e] l'];
    cbn [fst snd] in *.
  - cbn [withLoader TEMP_EMAIL_DOMAINS_SET].
    destruct (TEMP_EMAIL_DOMAINS_SET st) eqn:Hs; cbn [snd].
    + by split.
    + split; [done|]. apply builtFrom_initializeDomains. by apply Hr.
  - by split.
Qed.

Lemma step_invariant st c :
  stateInvariant st -> stateInvariant (Run.step st c).
Proof.
  intros Hinv. destruct c; cbn [Run.step].
  - by apply isTempEmail_invariant.
  - destruct (validateEmail_state email st) as [-> | ->];
      [done|by apply isTempEmail_invariant].
  - by apply ensureDomainsLoaded_invariant.
  - split; [split; intros ds [=]|done].
  - destruct Hinv as [Hl Hb]. split; [|done].
    by apply loadDomains_canonical.
  - destruct Hinv as [Hl Hb]. split; [|done]. split; intros ds [=].
Qed.

Lemma run_invariant calls : stateInvariant (Run.run calls).
Proof.
  induction calls as [|c calls IH] using rev_ind.
  - split; [split; intros ds [=]|done].
  - rewrite run_snoc. by apply step_invariant.
Qed.

(** C4. Every domain [D] of the sequence the structures were built from is
    found by the index and is a member of the exact-match set.  The set
    stores the strings as supplied: the lowercased [D] is a member when the
    sequence is in canonical lowercase form, and in every state the module
    can reach the sequence is in that form, so there [D] is found by the
    index and by the set, as supplied and lowercased. *)
Theorem initializeDomains_exact :
  (forall domains st D,
     D ∈ domains ->
     exists set trie,
       TEMP_EMAIL_DOMAINS_SET (initializeDomains domains st) = Some set /\
       TEMP_EMAIL_DOMAINS_TRIE (initializeDomains domains st) = Some trie /\
       trie = DomainTrie.fromDomains domains /\
       DomainTrie.hasDomain trie D = true /\
       D ∈ set /\
       (Forall canonical domains -> JS.toLowerCase D ∈ set)) /\
  (forall calls set trie domains D,
     TEMP_EMAIL_DOMAINS_SET (Run.run calls) = Some set ->
     TEMP_EMAIL_DOMAINS_TRIE (Run.run calls) = Some trie ->
     TEMP_EMAIL_DOMAINS_ARRAY (Run.run calls) = Some domains ->
     D ∈ domains ->
     DomainTrie.hasDomain trie D = true /\ D ∈ set /\ JS.toLowerCase D ∈ set).
Proof.
  assert (forall domains D, D ∈ domains ->
            DomainTrie.hasDomain (DomainTrie.fromDomains domains) D = true)
    as Hexact.
  { intros domains D HD. apply hasDomain_labels. exists D. split; [done|].
    exists [], []. by rewrite app_nil_r. }
  split.
  - intros domains st D HD.
    exists (list_to_set domains), (DomainTrie.fromDomains domains).
    cbn [initializeDomains TEMP_EMAIL_DOMAINS_SET TEMP_EMAIL_DOMAINS_TRIE].
    split; [done|]. split; [done|]. split; [done|].
    split; [by apply Hexact|]. split; [by apply elem_of_list_to_set|].
    intros Hcanon. apply elem_of_list_to_set.
    rewrite Forall_forall in Hcanon. by rewrite (Hcanon D HD).
  - intros calls set trie domains D Hs Ht Ha HD.
    destruct (run_invariant calls) as [_ Hb]. unfold builtFrom in Hb.
    rewrite Hs, Ht, Ha in Hb. destruct Hb as (Hcanon & -> & ->).
    split; [by apply Hexact|].
    rewrite Forall_forall in Hcanon. rewrite (Hcanon D HD).
    split; by apply elem_of_list_to_set.
Qed.

Lemma initializeDomains_exact_witness :
  "example.com" ∈ ["0-180.com"; "example.com"] /\
  exists set trie,
    TEMP_EMAIL_DOMAINS_SET
      (initializeDomains ["0-180.com"; "example.com"] initial) = Some set /\
    TEMP_EMAIL_DOMAINS_TRIE
      (initializeDomains ["0-180.com"; "example.com"] initial) = Some trie /\
    trie = DomainTrie.fromDomains ["0-180.com"; "example.com"] /\
    DomainTrie.hasDomain trie "example.com" = true /\
    "example.com" ∈ set /\
    (Forall canonical ["0-180.com"; "example.com"] ->
     JS.toLowerCase "example.com" ∈ set).
Proof.
  assert ("example.com" ∈ ["0-180.com"; "example.com"]) as H
    by (right; left).
  split; [exact H|].
  exact (proj1 initializeDomains_exact _ initial "example.com" H).
Defined.

End Reachable.

(* ===================================================================== *)
(** * Part IV: further properties of the code *)
(* ===================================================================== *)

(** ** The trie *)

Section TrieMore.
Import DomainTrie TriePath.

Lemma insertParts_idem parts : forall node,
  insertParts parts (insertParts parts node) = insertParts parts node.
Proof.
  induction parts as [|x rest IH]; intros node; [reflexivity|].
  cbn [insertParts children isEnd].
  rewrite lookup_insert_eq. cbn [default from_option id].
  by rewrite IH, insert_insert_eq.
Qed.

(** X1. Inserting a domain a second time, in any letter case, leaves the
    trie exactly as it was after the first insertion. *)
Theorem insert_idempotent d d' trie :
  caseVariant d d' -> insert d' (insert d trie) = insert d trie.
Proof.
  intros H. unfold insert, reversedParts. cbn [root].
  by rewrite <- (caseVariant_lower _ _ H), insertParts_idem.
Qed.

Lemma insert_idempotent_witness :
  insert "EXAMPLE.com" (insert "Example.COM" (fromDomains ["test.org"]))
  = insert "Example.COM" (fromDomains ["test.org"]).
Proof.
  apply insert_idempotent.
  repeat (constructor; [vm_compute; tauto|]). constructor.
Defined.

Lemma hasDomain_inserted domains D :
  D ∈ domains -> hasDomain (fromDomains domains) D = true.
Proof.
  intros HD. apply hasDomain_labels. exists D. split; [done|].
  exists [], []. by rewrite app_nil_r.
Qed.

(** X2. What [hasDomain] answers depends only on which domains were
    inserted, not on their order or on repetitions. *)
Theorem hasDomain_same_members domains1 domains2 q :
  (forall d, d ∈ domains1 <-> d ∈ domains2) ->
  hasDomain (fromDomains domains1) q = hasDomain (fromDomains domains2) q.
Proof.
  intros H. apply eq_true_iff_eq. rewrite !hasDomain_labels.
  split; intros (d & Hd & Hb); exists d; split; try done; by apply H.
Qed.

Lemma hasDomain_same_members_witness :
  hasDomain (fromDomains ["a.com"; "b.org"; "a.com"]) "x.b.org"
  = hasDomain (fromDomains ["b.org"; "a.com"]) "x.b.org".
Proof.
  apply hasDomain_same_members. intros d.
  rewrite !elem_of_cons, !elem_of_nil. tauto.
Defined.

Lemma fromDomains_snoc domains d :
  fromDomains (domains ++ [d]) = insert d (fromDomains domains).
Proof. unfold fromDomains. by rewrite foldl_app. Qed.

(** X3. Inserting one more domain into a built trie never turns a match
    into a miss. *)
Theorem hasDomain_insert_monotone domains d q :
  hasDomain (fromDomains domains) q = true ->
  hasDomain (insert d (fromDomains domains)) q = true.
Proof.
  rewrite <- fromDomains_snoc, !hasDomain_labels.
  intros (d0 & Hd0 & Hb). exists d0. split; [|done].
  apply elem_of_app. by left.
Qed.

Lemma hasDomain_insert_monotone_witness :
  hasDomain (insert "other.net" (fromDomains ["example.com"])) "a.example.com"
  = true.
Proof.
  apply hasDomain_insert_monotone. vm_compute. reflexivity.
Defined.

(** X4. The empty trie, and a trie built from no domain, match nothing. *)
Theorem hasDomain_empty q :
  hasDomain empty q = false /\ hasDomain (fromDomains []) q = false.
Proof.
  assert (hasDomain (fromDomains []) q = false) as H.
  { destruct (hasDomain (fromDomains []) q) eqn:E; [|done].
    apply hasDomain_labels in E as (d & Hd & _). by apply elem_of_nil in Hd. }
  split; exact H.
Qed.

Lemma toLowerChar_dot c :
  Ascii.eqb (JS.toLowerChar c) "." = Ascii.eqb c ".".
Proof.
  destruct c as [[] [] [] [] [] [] [] []]; vm_compute; reflexivity.
Qed.

Lemma labels_dotless q :
  allChars (fun c => negb (Ascii.eqb c ".")) q = true ->
  labels q = [JS.toLowerCase q].
Proof.
  intros H. unfold labels. apply split_no_sep.
  induction q as [|c q IH]; [done|]. simpl in *.
  apply andb_true_iff in H as [Hc Hq].
  by rewrite toLowerChar_dot, Hc, (IH Hq).
Qed.

Lemma labels_singleton d x : labels d = [x] -> JS.toLowerCase d = x.
Proof. unfold labels. by intros [-> _]%split_one. Qed.

(** X5. A query without a dot (the empty string included) matches exactly
    when some inserted domain equals it up to letter case: no shorter or
    longer domain can match it. *)
Theorem hasDomain_dotless domains q :
  allChars (fun c => negb (Ascii.eqb c ".")) q = true ->
  hasDomain (fromDomains domains) q = true <->
  exists d, d ∈ domains /\ JS.toLowerCase d = JS.toLowerCase q.
Proof.
  intros Hq. rewrite hasDomain_labels, (labels_dotless q Hq).
  split; intros (d & Hd & H); exists d; (split; [done|]).
  - destruct H as (before & after & H).
    pose proof (split_nonempty "." (JS.toLowerCase d)) as Hne.
    fold (labels d) in Hne.
    destruct before as [|b before].
    + destruct (labels d) as [|x [|y l]] eqn:E; [done| |done].
      simpl in H. injection H as <-. by apply labels_singleton.
    + destruct before; destruct (labels d); try done.
  - exists [], []. rewrite app_nil_r. simpl.
    unfold labels. rewrite H. symmetry. exact (labels_dotless q Hq).
Qed.

Lemma hasDomain_dotless_witness :
  hasDomain (fromDomains ["LocalHost"; "example.com"]) "localhost" = true <->
  exists d, d ∈ ["LocalHost"; "example.com"]
            /\ JS.toLowerCase d = JS.toLowerCase "localhost".
Proof.
  apply hasDomain_dotless. vm_compute. reflexivity.
Defined.

(** X6. For every inserted domain [D] and every string [S],
    [hasDomain (D + "." + S)] is true: labels appended after an inserted
    domain are ignored just as labels prepended before it are. *)
Theorem hasDomain_appended_labels domains D S :
  D ∈ domains ->
  hasDomain (fromDomains domains) (D +:+ String "." S) = true.
Proof.
  intros HD. apply hasDomain_labels. exists D. split; [done|].
  exists [], (labels S). by rewrite labels_prepend.
Qed.

Lemma hasDomain_appended_labels_witness :
  hasDomain (fromDomains ["tempmail.com"]) ("tempmail.com" +:+ String "." "au")
  = true.
Proof.
  apply hasDomain_appended_labels. left.
Defined.

End TrieMore.

(** ** The recency cache and the classifier *)

Section ClassifierMore.
Import Guard.

Lemma isTempEmail_unready_state email st :
  TEMP_EMAIL_DOMAINS_SET st = None \/ TEMP_EMAIL_DOMAINS_TRIE st = None ->
  Loader.getCachedDomains (loader st) = None ->
  snd (isTempEmail email st) = st.
Proof.
  intros Hnb Hc. unfold isTempEmail.
  rewrite (autoInitialize_not_ready st Hnb Hc).
  by destruct (negb (JS.truthy email)).
Qed.

Lemma get_set_ne {V} k d (v : V) m :
  k <> d -> JSMap.get k (JSMap.set d v m) = JSMap.get k m.
Proof.
  intros Hne. induction m as [|[k' v'] m IH]; simpl.
  - destruct (String.eqb d k) eqn:E; [|done].
    apply String.eqb_eq in E. congruence.
  - destruct (String.eqb k' d) eqn:E; simpl; [|by rewrite IH].
    apply String.eqb_eq in E. subst k'.
    destruct (String.eqb d k) eqn:E'; [|done].
    apply String.eqb_eq in E'. congruence.
Qed.

(** X7. [cacheResult] does not disturb the other entries: a lookup of any
    key other than the one stored answers as before, unless that key was
    the oldest entry of a full cache. *)
Theorem cacheResult_other_keys k domain result cache :
  k <> domain ->
  JSMap.size cache < MAX_CACHE_SIZE \/ JSMap.firstKey cache <> Some k ->
  JSMap.get k (cacheResult domain result cache) = JSMap.get k cache.
Proof.
  intros Hne Hkeep.
  destruct (decide (JSMap.size cache < MAX_CACHE_SIZE)) as [Hlt|Hge].
  - rewrite cacheResult_below by done. by apply get_set_ne.
  - destruct Hkeep as [?|Hfirst]; [done|].
    destruct cache as [|[k0 v0] rest].
    + unfold JSMap.size, MAX_CACHE_SIZE in Hge. simpl in Hge. lia.
    + rewrite cacheResult_full by lia. rewrite get_set_ne by done.
      cbn [JSMap.get JSMap.firstKey] in *.
      destruct (String.eqb k0 k) eqn:E; [|done].
      apply String.eqb_eq in E. congruence.
Qed.

Lemma cacheResult_other_keys_witness :
  JSMap.get (Run.testKey 5) (cacheResult "new.example" true Run.fullCache)
  = JSMap.get (Run.testKey 5) Run.fullCache.
Proof.
  apply cacheResult_other_keys.
  - vm_compute. discriminate.
  - right. vm_compute. discriminate.
Defined.

Lemma validateEmail_returns email st :
  exists r, fst (validateEmail email st) = Return r.
Proof.
  unfold validateEmail.
  destruct (negb (JS.truthy email)); [eauto|].
  destruct (negb _); [eauto|].
  destruct (isTempEmail_returns email st) as [b Hb].
  destruct (isTempEmail email st) as [r st']. cbn [fst] in Hb. subst r. eauto.
Qed.

(** X8. [isTempEmail] and [validateEmail] return, and do not throw, on
    every input and in every state of the module variables, also one in
    which only one of the set and the trie is present. *)
Theorem classifier_never_throws email st :
  (exists verdict, fst (isTempEmail email st) = Return verdict) /\
  (exists result, fst (validateEmail email st) = Return result).
Proof. split; [apply isTempEmail_returns|apply validateEmail_returns]. Qed.

(** The invariant [cacheCoherent]. *)

Lemma Forall_set {V} (P : string * V -> Prop) d v (m : JSMap.t V) :
  Forall P m -> P (d, v) -> Forall P (JSMap.set d v m).
Proof.
  intros Hm Hd. induction Hm as [|[k' v'] m Hk Hm IH]; simpl.
  - by repeat constructor.
  - destruct (String.eqb k' d) eqn:E.
    + apply String.eqb_eq in E. subst k'. by constructor.
    + by constructor.
Qed.

Lemma Forall_cacheResult (P : string * bool -> Prop) d r cache :
  Forall P cache -> P (d, r) -> Forall P (cacheResult d r cache).
Proof.
  intros Hc Hd. unfold cacheResult. apply Forall_set; [|done].
  destruct (MAX_CACHE_SIZE <=? JSMap.size cache); [|done].
  destruct cache as [|[k0 v0] rest]; [done|].
  cbn [JSMap.firstKey JSMap.delete]. rewrite String.eqb_refl.
  by inversion Hc.
Qed.

Lemma get_Some_Forall {V} (P : string * V -> Prop) d v (m : JSMap.t V) :
  Forall P m -> JSMap.get d m = Some v -> P (d, v).
Proof.
  induction 1 as [|[k' v'] m Hk Hm IH]; simpl; [done|].
  destruct (String.eqb k' d) eqn:E; [|done].
  apply String.eqb_eq in E. subst k'. by intros [= <-].
Qed.

Lemma cacheCoherent_built st set trie :
  TEMP_EMAIL_DOMAINS_SET st = Some set ->
  TEMP_EMAIL_DOMAINS_TRIE st = Some trie ->
  cacheCoherent st <->
  Forall (fun entry => snd entry = lookupVerdict set trie (fst entry))
         (DOMAIN_CACHE st).
Proof. intros Hs Ht. unfold cacheCoherent. by rewrite Hs, Ht. Qed.

Lemma isTempEmail_autoInitialize email st st0 :
  JS.truthy email = true -> autoInitialize st = Some st0 ->
  isTempEmail email st = isTempEmail email st0.
Proof.
  intros He Hauto.
  destruct (autoInitialize_Some st st0 Hauto) as [(s & t & Hs & Ht) _].
  unfold isTempEmail. rewrite He, Hauto.
  by rewrite (autoInitialize_built st0 s t Hs Ht).
Qed.

Lemma isTempEmail_built_coherent email st set trie :
  TEMP_EMAIL_DOMAINS_SET st = Some set ->
  TEMP_EMAIL_DOMAINS_TRIE st = Some trie ->
  cacheCoherent st -> cacheCoherent (snd (isTempEmail email st)).
Proof.
  intros Hs Ht Hc.
  destruct (isTempEmail_built_frame email st set trie Hs Ht)
    as (Hs' & Ht' & _ & _).
  apply (cacheCoherent_built _ set trie Hs' Ht').
  apply (cacheCoherent_built _ set trie Hs Ht) in Hc.
  rewrite (isTempEmail_built email st set trie Hs Ht).
  destruct (negb (JS.truthy email)); [done|].
  destruct (noDomainPart email); [done|].
  destruct (negb (JS.truthy (emailDomain email))); [done|].
  destruct (JSMap.get (emailDomain email) (DOMAIN_CACHE st)); [done|].
  cbn [snd withCache DOMAIN_CACHE]. by apply Forall_cacheResult.
Qed.

Lemma isTempEmail_coherent email st :
  builtFrom st -> cacheCoherent st ->
  cacheCoherent (snd (isTempEmail email st)).
Proof.
  intros Hb Hc. unfold builtFrom in Hb.
  destruct (TEMP_EMAIL_DOMAINS_SET st) as [s|] eqn:Hs;
    destruct (TEMP_EMAIL_DOMAINS_TRIE st) as [t|] eqn:Ht; try done.
  - by apply (isTempEmail_built_coherent email st s t).
  - destruct (TEMP_EMAIL_DOMAINS_ARRAY st); [done|].
    assert (DOMAIN_CACHE st = []) as Hnil.
    { unfold cacheCoherent in Hc. by rewrite Hs in Hc. }
    destruct (Loader.getCachedDomains (loader st)) as [cached|] eqn:Hcached.
    + set (st0 := initializeDomains cached st).
      assert (cacheCoherent st0) as Hc0.
      { unfold cacheCoherent, st0. simpl. rewrite Hnil. constructor. }
      assert (isTempEmail email st = isTempEmail email st0
              \/ isTempEmail email st = (Return false, st)) as [-> | ->].
      { destruct (JS.truthy email) eqn:E.
        - left. apply isTempEmail_autoInitialize; [done|].
          unfold autoInitialize. by rewrite Hs, Hcached.
        - right. unfold isTempEmail. by rewrite E. }
      * by apply (isTempEmail_built_coherent email st0 _ _ eq_refl eq_refl).
      * done.
    + rewrite isTempEmail_unready_state; [done|by left|done].
Qed.

End ClassifierMore.

(** ** The cache never changes a verdict *)

Section Transparency.
Import Guard.

Lemma ensureDomainsLoaded_coherent env st :
  cacheCoherent st -> cacheCoherent (snd (ensureDomainsLoaded env st)).
Proof.
  intros Hc. unfold ensureDomainsLoaded.
  destruct (Loader.isDomainsLoaded (loader st)); [done|].
  destruct (Loader.loadDomains env (loader st)) as [[domains|e] l']; [|done].
  cbn [withLoader TEMP_EMAIL_DOMAINS_SET].
  destruct (TEMP_EMAIL_DOMAINS_SET st) eqn:Hs; [done|].
  unfold cacheCoherent in *. rewrite Hs in Hc. simpl. rewrite Hc. constructor.
Qed.

Lemma step_coherent st c :
  stateInvariant st -> cacheCoherent st -> cacheCoherent (Run.step st c).
Proof.
  intros [_ Hb] Hc. destruct c; cbn [Run.step].
  - by apply isTempEmail_coherent.
  - destruct (validateEmail_state email st) as [-> | ->];
      [done|by apply isTempEmail_coherent].
  - by apply ensureDomainsLoaded_coherent.
  - done.
  - done.
  - done.
Qed.

Lemma run_coherent calls : cacheCoherent (Run.run calls).
Proof.
  induction calls as [|c calls IH] using rev_ind; [done|].
  rewrite run_snoc. apply step_coherent; [apply run_invariant|done].
Qed.

Lemma lookupVerdict_built domains d :
  lookupVerdict (list_to_set domains) (DomainTrie.fromDomains domains) d
  = DomainTrie.hasDomain (DomainTrie.fromDomains domains) d.
Proof.
  unfold lookupVerdict. destruct (decide _) as [Hin|]; [|done].
  apply elem_of_list_to_set in Hin. symmetry. by apply hasDomain_inserted.
Qed.

(** The built structures of a reachable state. *)
Lemma run_built calls trie :
  TEMP_EMAIL_DOMAINS_TRIE (Run.run calls) = Some trie ->
  exists domains,
    TEMP_EMAIL_DOMAINS_SET (Run.run calls) = Some (list_to_set domains) /\
    TEMP_EMAIL_DOMAINS_ARRAY (Run.run calls) = Some domains /\
    trie = DomainTrie.fromDomains domains.
Proof.
  intros Ht. destruct (run_invariant calls) as [_ Hb]. unfold builtFrom in Hb.
  rewrite Ht in Hb.
  destruct (TEMP_EMAIL_DOMAINS_SET (Run.run calls)) as [s|]; [|done].
  destruct (TEMP_EMAIL_DOMAINS_ARRAY (Run.run calls)) as [ds|]; [|done].
  destruct Hb as (_ & -> & ->). eauto.
Qed.

Lemma isTempEmail_reachable calls email trie :
  TEMP_EMAIL_DOMAINS_TRIE (Run.run calls) = Some trie ->
  fst (isTempEmail email (Run.run calls))
  = Return (negb (noDomainPart email)
            && JS.truthy (emailDomain email)
            && DomainTrie.hasDomain trie (emailDomain email)).
Proof.
  intros Ht. destruct (run_built calls trie Ht) as (domains & Hs & _ & ->).
  pose proof (run_coherent calls) as Hc.
  apply (cacheCoherent_built _ _ _ Hs Ht) in Hc.
  rewrite (isTempEmail_built email _ _ _ Hs Ht).
  destruct (JS.truthy email) eqn:He; cbn [negb].
  2:{ destruct email; [reflexivity|discriminate]. }
  destruct (noDomainPart email); [done|].
  destruct (JS.truthy (emailDomain email)); cbn [negb andb]; [|done].
  destruct (JSMap.get _ _) as [r|] eqn:Hget; cbn [fst].
  - apply (get_Some_Forall _ _ _ _ Hc) in Hget. cbn [fst snd] in Hget.
    by rewrite Hget, lookupVerdict_built.
  - by rewrite lookupVerdict_built.
Qed.

(** X9. In every state the module can reach with the structures built,
    [isTempEmail] answers what the trie answers for the extracted domain
    (and false when there is no domain part): neither the recency cache
    nor the exact-match set ever changes a verdict. *)
Theorem isTempEmail_is_trie_lookup calls email trie :
  TEMP_EMAIL_DOMAINS_TRIE (Run.run calls) = Some trie ->
  fst (isTempEmail email (Run.run calls))
  = Return (negb (noDomainPart email)
            && JS.truthy (emailDomain email)
            && DomainTrie.hasDomain trie (emailDomain email)).
Proof. apply isTempEmail_reachable. Qed.

Lemma isTempEmail_is_trie_lookup_witness :
  fst (isTempEmail "user@sub.0-180.com"
         (Run.run [Run.Initialize Run.testEnv; Run.IsTempEmail "a@gmail.com"]))
  = Return (negb (noDomainPart "user@sub.0-180.com")
            && JS.truthy (emailDomain "user@sub.0-180.com")
            && DomainTrie.hasDomain
                 (DomainTrie.fromDomains (Loader.supplied Run.testEnv))
                 (emailDomain "user@sub.0-180.com")).
Proof.
  apply isTempEmail_is_trie_lookup. vm_compute. reflexivity.
Defined.

(** The domain part of an address. *)

Lemma length_append a b :
  String.length (a +:+ b) = String.length a + String.length b.
Proof.
  induction a as [|c a IH]; [done|]. rewrite append_cons. simpl. by rewrite IH.
Qed.

Lemma indexOf_absent c s :
  allChars (fun a => negb (Ascii.eqb a c)) s = true -> JS.indexOf c s = (-1)%Z.
Proof.
  induction s as [|a s IH]; simpl; [done|].
  intros [Ha Hs]%andb_true_iff. apply negb_true_iff in Ha.
  by rewrite Ha, (IH Hs).
Qed.

Lemma indexOf_nonneg c s : (-1 <= JS.indexOf c s)%Z.
Proof.
  induction s as [|a s IH]; simpl; [lia|].
  destruct (Ascii.eqb a c); [lia|].
  destruct (JS.indexOf c s =? -1)%Z; lia.
Qed.

Lemma indexOf_first c l d :
  allChars (fun a => negb (Ascii.eqb a c)) l = true ->
  JS.indexOf c (l +:+ String c d) = Z.of_nat (String.length l).
Proof.
  induction l as [|a l IH].
  - intros _. rewrite append_nil_l. simpl. by rewrite Ascii.eqb_refl.
  - rewrite append_cons. simpl. intros [Ha Hl]%andb_true_iff.
    apply negb_true_iff in Ha. rewrite Ha, (IH Hl).
    destruct (Z.of_nat (String.length l) =? -1)%Z eqn:E; lia.
Qed.

Lemma sliceFrom_append l c d :
  JS.sliceFrom (S (String.length l)) (l +:+ String c d) = d.
Proof. induction l as [|a l IH]; [done|]. by rewrite append_cons. Qed.

Lemma emailDomain_parts l d :
  allChars (fun a => negb (Ascii.eqb a "@")) l = true ->
  noDomainPart (l +:+ String "@" d) = negb (JS.truthy d) /\
  emailDomain (l +:+ String "@" d) = JS.trim (JS.toLowerCase d).
Proof.
  intros Hl. unfold noDomainPart, emailDomain.
  rewrite (indexOf_first _ l d Hl), length_append. cbn [String.length].
  replace (Z.to_nat (Z.of_nat (String.length l) + 1))
    with (S (String.length l)) by lia.
  rewrite sliceFrom_append. split; [|done].
  destruct d as [|c d]; cbn [String.length JS.truthy negb].
  - apply orb_true_iff. right. apply Z.eqb_eq. lia.
  - apply orb_false_iff. split; apply Z.eqb_neq; lia.
Qed.

Lemma isTempEmail_reachable_parts calls l d trie :
  TEMP_EMAIL_DOMAINS_TRIE (Run.run calls) = Some trie ->
  allChars (fun a => negb (Ascii.eqb a "@")) l = true ->
  fst (isTempEmail (l +:+ String "@" d) (Run.run calls))
  = Return (JS.truthy (JS.trim (JS.toLowerCase d))
            && DomainTrie.hasDomain trie (JS.trim (JS.toLowerCase d))).
Proof.
  intros Ht Hl. rewrite (isTempEmail_reachable calls _ trie Ht).
  destruct (emailDomain_parts l d Hl) as [-> ->].
  destruct d as [|c d]; [reflexivity|]. done.
Qed.

(** X10. In a reachable built state the verdict for [local@domain], where
    [local] has no [@], is the trie lookup of the domain part lowercased
    and trimmed: the local part and whatever follows a first [@] only
    matter through that string, and an empty or blank domain part gives
    false. *)
Theorem isTempEmail_local_part_irrelevant calls l d trie :
  TEMP_EMAIL_DOMAINS_TRIE (Run.run calls) = Some trie ->
  allChars (fun a => negb (Ascii.eqb a "@")) l = true ->
  fst (isTempEmail (l +:+ String "@" d) (Run.run calls))
  = Return (JS.truthy (JS.trim (JS.toLowerCase d))
            && DomainTrie.hasDomain trie (JS.trim (JS.toLowerCase d))).
Proof. apply isTempEmail_reachable_parts. Qed.

Lemma isTempEmail_local_part_irrelevant_witness :
  fst (isTempEmail ("first.last+tag" +:+ String "@" " Mail.0-180.COM ")
         (Run.run [Run.Initialize Run.testEnv]))
  = Return (JS.truthy (JS.trim (JS.toLowerCase " Mail.0-180.COM "))
            && DomainTrie.hasDomain
                 (DomainTrie.fromDomains (Loader.supplied Run.testEnv))
                 (JS.trim (JS.toLowerCase " Mail.0-180.COM "))).
Proof.
  apply isTempEmail_local_part_irrelevant; vm_compute; reflexivity.
Defined.

(** X11. An input without [@] is never flagged, in any state, and the
    call leaves the recency cache as it was. *)
Theorem isTempEmail_without_at email st :
  allChars (fun a => negb (Ascii.eqb a "@")) email = true ->
  fst (isTempEmail email st) = Return false /\
  DOMAIN_CACHE (snd (isTempEmail email st)) = DOMAIN_CACHE st.
Proof.
  intros H. apply indexOf_absent in H. unfold isTempEmail.
  destruct (negb (JS.truthy email)); [done|].
  destruct (autoInitialize st) as [st0|] eqn:Hauto; [|done].
  rewrite H. change ((-1 =? -1)%Z) with true. cbn [orb fst snd].
  by destruct (autoInitialize_Some st st0 Hauto) as (_ & -> & _).
Qed.

Lemma isTempEmail_without_at_witness :
  fst (isTempEmail "0-180.com" (Run.run [Run.Initialize Run.testEnv]))
  = Return false.
Proof.
  apply isTempEmail_without_at. vm_compute. reflexivity.
Defined.

End Transparency.

(** ** [validateEmail] *)

Section ValidateMore.
Import Guard.

(** X12. Every result of [validateEmail] is well formed: [isTempEmail] is
    set only on a valid address, [error] is null exactly when the address
    is valid and not flagged, and an invalid verdict leaves the state
    untouched. *)
Theorem validateEmail_result_shape email st :
  exists r,
    fst (validateEmail email st) = Return r /\
    (ValidationResult.isTempEmail r = true -> ValidationResult.isValid r = true) /\
    (ValidationResult.error r = None <->
     ValidationResult.isValid r = true /\ ValidationResult.isTempEmail r = false) /\
    (ValidationResult.isValid r = false -> snd (validateEmail email st) = st).
Proof.
  unfold validateEmail.
  destruct (negb (JS.truthy email)).
  { eexists. split; [reflexivity|]. simpl. intuition congruence. }
  destruct (negb _).
  { eexists. split; [reflexivity|]. simpl. intuition congruence. }
  destruct (isTempEmail_returns email st) as [b Hb].
  destruct (isTempEmail email st) as [r st']. cbn [fst] in Hb. subst r.
  eexists. split; [reflexivity|]. simpl. destruct b; intuition congruence.
Qed.

Lemma isSpace_toLowerChar c : JS.isSpace (JS.toLowerChar c) = JS.isSpace c.
Proof.
  destruct c as [[] [] [] [] [] [] [] []]; vm_compute; reflexivity.
Qed.

Lemma allChars_noSpace_lower s :
  allChars (fun c => negb (JS.isSpace c)) s = true ->
  allChars (fun c => negb (JS.isSpace c)) (JS.toLowerCase s) = true.
Proof.
  induction s as [|c s IH]; simpl; [done|].
  intros [Hc Hs]%andb_true_iff. by rewrite isSpace_toLowerChar, Hc, (IH Hs).
Qed.

Lemma trim_noSpace s :
  allChars (fun c => negb (JS.isSpace c)) s = true -> JS.trim s = s.
Proof.
  intros H. unfold JS.trim.
  assert (JS.trimEnd s = s) as ->.
  { induction s as [|c s IH]; [done|]. simpl in *.
    apply andb_true_iff in H as [Hc Hs]. rewrite (IH Hs).
    apply negb_true_iff in Hc. rewrite Hc. by destruct s. }
  destruct s as [|c s]; [done|]. simpl in *.
  apply andb_true_iff in H as [Hc _]. apply negb_true_iff in Hc.
  by rewrite Hc.
Qed.

Lemma validateEmail_reachable calls email l d trie :
  TEMP_EMAIL_DOMAINS_TRIE (Run.run calls) = Some trie ->
  JS.split "@" email = [l; d] ->
  formatCheck email = true ->
  fst (validateEmail email (Run.run calls))
  = Return {| ValidationResult.isValid := true;
              ValidationResult.isTempEmail := DomainTrie.hasDomain trie d;
              ValidationResult.error :=
                if DomainTrie.hasDomain trie d
                then Some "Email is from a temporary email service"
                else None |}.
Proof.
  intros Ht Hsplit Hfmt.
  pose proof Hfmt as Hfmt'. unfold formatCheck in Hfmt'. rewrite Hsplit in Hfmt'.
  apply andb_true_iff in Hfmt' as [[Hsp Hl]%andb_true_iff Hd].
  apply split_two in Hsplit as (-> & Hl' & _).
  rewrite allChars_app in Hsp. simpl in Hsp.
  apply andb_true_iff in Hsp as [_ Hspd].
  pose proof (isTempEmail_reachable_parts calls l d trie Ht Hl') as Hres.
  rewrite (trim_noSpace _ (allChars_noSpace_lower d Hspd)) in Hres.
  rewrite hasDomain_lower in Hres.
  assert (JS.truthy (JS.toLowerCase d) = true) as Htr.
  { destruct d; [done|reflexivity]. }
  rewrite Htr in Hres. cbn [andb] in Hres.
  unfold validateEmail. rewrite test_EMAIL_REGEX, Hfmt.
  assert (JS.truthy (l +:+ String "@" d) = true) as -> by (by destruct l).
  cbn [negb].
  destruct (isTempEmail _ _) as [r st']. cbn [fst] in Hres. by subst r.
Qed.

(** X13. In a reachable built state, an address [local@domain] that passes
    the format check is reported valid, with [isTempEmail] equal to the
    trie lookup of its domain part and the error message set exactly when
    that lookup succeeds. *)
Theorem validateEmail_is_trie_lookup calls email l d trie :
  TEMP_EMAIL_DOMAINS_TRIE (Run.run calls) = Some trie ->
  JS.split "@" email = [l; d] ->
  formatCheck email = true ->
  fst (validateEmail email (Run.run calls))
  = Return {| ValidationResult.isValid := true;
              ValidationResult.isTempEmail := DomainTrie.hasDomain trie d;
              ValidationResult.error :=
                if DomainTrie.hasDomain trie d
                then Some "Email is from a temporary email service"
                else None |}.
Proof. apply validateEmail_reachable. Qed.

Lemma validateEmail_is_trie_lookup_witness :
  fst (validateEmail "Jo@Sub.0-Mail.com" (Run.run [Run.Initialize Run.testEnv]))
  = Return {| ValidationResult.isValid := true;
              ValidationResult.isTempEmail :=
                DomainTrie.hasDomain
                  (DomainTrie.fromDomains (Loader.supplied Run.testEnv))
                  "Sub.0-Mail.com";
              ValidationResult.error :=
                if DomainTrie.hasDomain
                     (DomainTrie.fromDomains (Loader.supplied Run.testEnv))
                     "Sub.0-Mail.com"
                then Some "Email is from a temporary email service"
                else None |}.
Proof.
  apply (validateEmail_is_trie_lookup _ _ "Jo" "Sub.0-Mail.com");
    vm_compute; reflexivity.
Defined.

End ValidateMore.

(** ** The life cycle: loading, failing, clearing *)

Section Lifecycle.
Import Guard.

Lemma loadDomains_Return_again env env' l ds l1 :
  Loader.loadDomains env l = (Return ds, l1) ->
  Loader.loadDomains env' l1 = (Return ds, l1).
Proof.
  unfold Loader.loadDomains.
  destruct (Loader.cachedDomains l) as [cached|] eqn:Ec.
  { intros [= <- <-]. by rewrite Ec. }
  destruct (Loader.loadPromise l) as [settled|] eqn:Ep.
  { intros [= -> <-]. by rewrite Ec, Ep. }
  destruct (Loader.loadDomainsFromFile (Loader.localFiles env)) as [[|d0 ds0]|];
    try destruct (Loader.fetchDomains (Loader.sources env));
    intros [= <- <-]; reflexivity.
Qed.

Lemma loadDomains_Throw_again env env' l e l1 :
  Loader.loadDomains env l = (Throw e, l1) ->
  Loader.loadDomains env' l1 = (Throw e, l1) /\ Loader.cachedDomains l1 = None.
Proof.
  unfold Loader.loadDomains.
  destruct (Loader.cachedDomains l) as [cached|] eqn:Ec; [done|].
  destruct (Loader.loadPromise l) as [settled|] eqn:Ep.
  { intros [= -> <-]. by rewrite Ec, Ep. }
  destruct (Loader.loadDomainsFromFile (Loader.localFiles env)) as [[|d0 ds0]|];
    try destruct (Loader.fetchDomains (Loader.sources env));
    intros [= <- <-]; done.
Qed.

Lemma ensureDomainsLoaded_initial env :
  Loader.supplied env <> [] ->
  ensureDomainsLoaded env initial = (Return (), Run.run [Run.Initialize env]) /\
  TEMP_EMAIL_DOMAINS_TRIE (Run.run [Run.Initialize env])
  = Some (DomainTrie.fromDomains (Loader.supplied env)) /\
  TEMP_EMAIL_DOMAINS_ARRAY (Run.run [Run.Initialize env])
  = Some (Loader.supplied env).
Proof.
  intros Hne. unfold Run.run. cbn [foldl Run.step]. unfold initialize.
  unfold ensureDomainsLoaded.
  cbn [initial loader Loader.isDomainsLoaded Loader.initial Loader.cachedDomains].
  destruct (loadDomains_fresh env Loader.initial eq_refl eq_refl)
    as [[? _]|[_ Hl]]; [done|].
  rewrite Hl || (unfold Loader.initial in Hl; rewrite Hl). done.
Qed.

Lemma clearCache_initial st : clearCache st = initial.
Proof. reflexivity. Qed.

(** X14. Once [loadDomains] has returned a list, every later call returns
    that same list and changes nothing, whatever the files and the remote
    sources have become. *)
Theorem loadDomains_cached env env' l ds l1 :
  Loader.loadDomains env l = (Return ds, l1) ->
  Loader.loadDomains env' l1 = (Return ds, l1) /\
  (Loader.cachedDomains l = None -> Loader.loadPromise l = None ->
   Loader.getCachedDomains l1 = Some ds /\ Loader.isDomainsLoaded l1 = true).
Proof.
  intros H. split; [exact (loadDomains_Return_again env env' l ds l1 H)|].
  intros Hc Hp.
  destruct (loadDomains_fresh env l Hc Hp) as [[_ H']|[_ H']];
    rewrite H' in H; [done|]. by injection H as <- <-.
Qed.

Lemma loadDomains_cached_witness :
  let l1 := {| Loader.cachedDomains := Some ["0-180.com"; "0-mail.com"];
               Loader.loadPromise :=
                 Some (Return ["0-180.com"; "0-mail.com"]) |} in
  Loader.loadDomains Run.testEnv Loader.initial
  = (Return ["0-180.com"; "0-mail.com"], l1) /\
  Loader.loadDomains {| Loader.localFiles := []; Loader.sources := [] |} l1
  = (Return ["0-180.com"; "0-mail.com"], l1).
Proof.
  cbv zeta.
  assert (Loader.loadDomains Run.testEnv Loader.initial
          = (Return ["0-180.com"; "0-mail.com"],
             {| Loader.cachedDomains := Some ["0-180.com"; "0-mail.com"];
                Loader.loadPromise :=
                  Some (Return ["0-180.com"; "0-mail.com"]) |})) as H
    by (vm_compute; reflexivity).
  split; [exact H|].
  exact (proj1 (loadDomains_cached Run.testEnv _ _ _ _ H)).
Defined.

(** X15. A failed initialization sticks: after [initialize] has thrown,
    every further [initialize] throws the same error whatever the sources
    now supply, until [clearCache] is called; after [clearCache] an
    initialization with a nonempty supply succeeds. *)
Theorem initialize_failure_sticks env st e :
  fst (initialize env st) = Throw e ->
  (forall env',
     fst (initialize env' (snd (initialize env st))) = Throw e) /\
  (forall env',
     Loader.supplied env' <> [] ->
     fst (initialize env' (clearCache (snd (initialize env st)))) = Return ()).
Proof.
  intros H. split.
  - intros env'. revert H. unfold initialize, ensureDomainsLoaded.
    destruct (Loader.isDomainsLoaded (loader st)) eqn:Hl; [done|].
    destruct (Loader.loadDomains env (loader st)) as [[ds|e0] l'] eqn:Hload.
    { cbn [withLoader TEMP_EMAIL_DOMAINS_SET].
      by destruct (TEMP_EMAIL_DOMAINS_SET st). }
    cbn [fst snd]. intros [= ->].
    destruct (loadDomains_Throw_again env env' _ _ _ Hload) as [Hagain Hnone].
    cbn [withLoader loader]. unfold Loader.isDomainsLoaded.
    rewrite Hnone, Hagain. reflexivity.
  - intros env' Hne. rewrite clearCache_initial. unfold initialize.
    by destruct (ensureDomainsLoaded_initial env' Hne) as [-> _].
Qed.

Lemma initialize_failure_sticks_witness :
  fst (initialize Run.testEnv
         (snd (initialize {| Loader.localFiles := [];
                             Loader.sources := [["#"]] |} initial)))
  = Throw Loader.noDomainsMessage.
Proof.
  apply (proj1 (initialize_failure_sticks
                  {| Loader.localFiles := []; Loader.sources := [["#"]] |}
                  initial Loader.noDomainsMessage
                  ltac:(vm_compute; reflexivity))).
Defined.

(** X16. [initialize] is idempotent: after it has returned, a further
    [initialize], in any environment, returns at once and leaves every
    module variable as it is. *)
Theorem initialize_idempotent env env' st :
  fst (initialize env st) = Return () ->
  initialize env' (snd (initialize env st))
  = (Return (), snd (initialize env st)).
Proof.
  unfold initialize, ensureDomainsLoaded.
  destruct (Loader.isDomainsLoaded (loader st)) eqn:Hl.
  { intros _. cbn [snd]. by rewrite Hl. }
  destruct (Loader.loadDomains env (loader st)) as [[ds|e0] l'] eqn:Hload;
    [|done].
  intros _. pose proof (loadDomains_Return_again env env' _ _ _ Hload) as Hagain.
  cbn [withLoader TEMP_EMAIL_DOMAINS_SET].
  destruct (TEMP_EMAIL_DOMAINS_SET st) as [s|] eqn:Hs; cbn [snd].
  - cbn [loader withLoader]. destruct (Loader.isDomainsLoaded l'); [done|].
    rewrite Hagain. cbn [withLoader TEMP_EMAIL_DOMAINS_SET]. by rewrite Hs.
  - cbn [initializeDomains withLoader loader].
    destruct (Loader.isDomainsLoaded l'); [done|].
    rewrite Hagain. reflexivity.
Qed.

Lemma initialize_idempotent_witness :
  initialize {| Loader.localFiles := []; Loader.sources := [] |}
    (snd (initialize Run.testEnv initial))
  = (Return (), snd (initialize Run.testEnv initial)).
Proof.
  apply initialize_idempotent. vm_compute. reflexivity.
Defined.

(** X17. Once built, the set, the trie and the domain array are never
    replaced or modified by any call other than [clearCache]: not by a
    lookup, not by a further [initialize], not by reloading the loader. *)
Theorem structures_immutable st c set trie :
  c <> Run.ClearCache ->
  TEMP_EMAIL_DOMAINS_SET st = Some set ->
  TEMP_EMAIL_DOMAINS_TRIE st = Some trie ->
  TEMP_EMAIL_DOMAINS_SET (Run.step st c) = Some set /\
  TEMP_EMAIL_DOMAINS_TRIE (Run.step st c) = Some trie /\
  TEMP_EMAIL_DOMAINS_ARRAY (Run.step st c) = TEMP_EMAIL_DOMAINS_ARRAY st.
Proof.
  intros Hc Hs Ht.
  destruct c; cbn [Run.step]; try done.
  - destruct (isTempEmail_built_frame email st set trie Hs Ht)
      as (? & ? & ? & _). done.
  - destruct (validateEmail_state email st) as [-> | ->]; [done|].
    destruct (isTempEmail_built_frame email st set trie Hs Ht)
      as (? & ? & ? & _). done.
  - unfold initialize, ensureDomainsLoaded.
    destruct (Loader.isDomainsLoaded (loader st)); [done|].
    destruct (Loader.loadDomains env (loader st)) as [[ds|e0] l']; [|done].
    cbn [withLoader TEMP_EMAIL_DOMAINS_SET]. rewrite Hs. done.
Qed.

Lemma structures_immutable_witness :
  let st := initializeDomains ["0-180.com"] initial in
  let c := Run.Initialize {| Loader.localFiles := [Some ["other.org"]];
                             Loader.sources := [] |} in
  TEMP_EMAIL_DOMAINS_SET (Run.step st c) = TEMP_EMAIL_DOMAINS_SET st /\
  TEMP_EMAIL_DOMAINS_TRIE (Run.step st c) = TEMP_EMAIL_DOMAINS_TRIE st /\
  TEMP_EMAIL_DOMAINS_ARRAY (Run.step st c) = TEMP_EMAIL_DOMAINS_ARRAY st.
Proof.
  cbv zeta.
  exact (structures_immutable (initializeDomains ["0-180.com"] initial)
           (Run.Initialize {| Loader.localFiles := [Some ["other.org"]];
                              Loader.sources := [] |})
           _ _ ltac:(discriminate) eq_refl eq_refl).
Defined.

(** X18. The asynchronous variants called on a freshly loaded module:
    with an empty supply all three reject with the loader's error; with a
    nonempty supply [isTempEmailAsync] answers the lookup of the extracted
    domain in the trie of the supplied domains, and
    [getTempEmailDomainsAsync] returns the supplied domains. *)
Theorem async_variants_from_initial env email :
  (Loader.supplied env = [] ->
   fst (isTempEmailAsync env email initial) = Throw Loader.noDomainsMessage /\
   fst (validateEmailAsync env email initial) = Throw Loader.noDomainsMessage /\
   fst (getTempEmailDomainsAsync env initial) = Throw Loader.noDomainsMessage) /\
  (Loader.supplied env <> [] ->
   fst (isTempEmailAsync env email initial)
   = Return (negb (noDomainPart email)
             && JS.truthy (emailDomain email)
             && DomainTrie.hasDomain
                  (DomainTrie.fromDomains (Loader.supplied env))
                  (emailDomain email)) /\
   fst (getTempEmailDomainsAsync env initial) = Return (Loader.supplied env)).
Proof.
  split.
  - intros He. unfold isTempEmailAsync, validateEmailAsync,
      getTempEmailDomainsAsync, ensureDomainsLoaded.
    cbn [initial loader Loader.isDomainsLoaded Loader.initial
         Loader.cachedDomains].
    destruct (loadDomains_fresh env Loader.initial eq_refl eq_refl)
      as [[_ Hl]|[? _]]; [|done].
    rewrite Hl || (unfold Loader.initial in Hl; rewrite Hl). done.
  - intros Hne.
    destruct (ensureDomainsLoaded_initial env Hne) as (Hens & Ht & Ha).
    unfold isTempEmailAsync, getTempEmailDomainsAsync. rewrite Hens.
    split; [by apply isTempEmail_reachable|].
    cbn [fst]. unfold getTempEmailDomains. by rewrite Ha.
Qed.

Lemma async_variants_from_initial_witness :
  fst (isTempEmailAsync Run.testEnv "user@0-180.com" initial)
  = Return (negb (noDomainPart "user@0-180.com")
            && JS.truthy (emailDomain "user@0-180.com")
            && DomainTrie.hasDomain
                 (DomainTrie.fromDomains (Loader.supplied Run.testEnv))
                 (emailDomain "user@0-180.com")) /\
  fst (getTempEmailDomainsAsync Run.testEnv initial)
  = Return (Loader.supplied Run.testEnv).
Proof.
  apply (proj2 (async_variants_from_initial Run.testEnv "user@0-180.com")).
  vm_compute. discriminate.
Defined.

End Lifecycle.

(** ** The merged list of [fetchDomains] *)

Section MergeMore.

Lemma existsb_eqb_elem x (l : list string) :
  existsb (String.eqb x) l = true <-> x ∈ l.
Proof.
  rewrite existsb_exists. split.
  - intros (y & Hy%list_elem_of_In & ->%String.eqb_eq). done.
  - intros H. exists x. split; [by apply list_elem_of_In|apply String.eqb_refl].
Qed.

Lemma setAdd_elem acc y x : x ∈ Loader.setAdd acc y <-> x ∈ acc \/ x = y.
Proof.
  unfold Loader.setAdd. destruct (existsb (String.eqb y) acc) eqn:E.
  - apply existsb_eqb_elem in E. split; [by left|]. by intros [?| ->].
  - rewrite elem_of_app, list_elem_of_singleton. done.
Qed.

Lemma setAdd_NoDup acc y : NoDup acc -> NoDup (Loader.setAdd acc y).
Proof.
  intros H. unfold Loader.setAdd.
  destruct (existsb (String.eqb y) acc) eqn:E; [done|].
  apply NoDup_app. split; [done|]. split; [|apply NoDup_singleton].
  intros x Hx ->%list_elem_of_singleton.
  apply existsb_eqb_elem in Hx. congruence.
Qed.

Lemma foldl_mergeInto_elem xs : forall acc x,
  x ∈ foldl Loader.mergeInto acc xs <->
  x ∈ acc \/
  exists d, d ∈ xs /\ Loader.normalizeDomain d = x
            /\ Loader.isValidDomain x = true.
Proof.
  induction xs as [|d xs IH]; intros acc x; simpl.
  - split; [by left|]. intros [?|(d & Hd & _)]; [done|by apply elem_of_nil in Hd].
  - rewrite IH. unfold Loader.mergeInto.
    destruct (Loader.isValidDomain (Loader.normalizeDomain d)) eqn:Hv.
    + rewrite setAdd_elem. split.
      * intros [[?| ->]|(d' & Hd' & He & Hx)].
        -- by left.
        -- right. exists d. split; [left|done].
        -- right. exists d'. split; [by right|done].
      * intros [?|(d' & [-> | Hd']%elem_of_cons & He & Hx)].
        -- by left; left.
        -- left; right. done.
        -- right. by exists d'.
    + split.
      * intros [?|(d' & Hd' & He & Hx)]; [by left|].
        right. exists d'. split; [by right|done].
      * intros [?|(d' & [-> | Hd']%elem_of_cons & He & Hx)]; [by left| |].
        -- congruence.
        -- right. by exists d'.
Qed.

Lemma foldl_mergeInto_NoDup xs : forall acc,
  NoDup acc -> NoDup (foldl Loader.mergeInto acc xs).
Proof.
  induction xs as [|d xs IH]; intros acc H; simpl; [done|].
  apply IH. unfold Loader.mergeInto.
  destruct (Loader.isValidDomain _); [by apply setAdd_NoDup|done].
Qed.

Lemma sortedInsert_perm x l : Loader.sortedInsert x l ≡ₚ x :: l.
Proof.
  induction l as [|y l IH]; simpl; [done|].
  destruct (String.leb x y); [done|].
  rewrite IH. apply Permutation_swap.
Qed.

Lemma sort_perm l : Loader.sort l ≡ₚ l.
Proof.
  unfold Loader.sort. induction l as [|x l IH]; simpl; [done|].
  by rewrite sortedInsert_perm, IH.
Qed.

Lemma sortedInsert_ascending x l :
  ascending l -> ascending (Loader.sortedInsert x l).
Proof.
  unfold ascending. induction 1 as [|y l Hl IH Hhd]; simpl.
  - by repeat constructor.
  - destruct (String.leb x y) eqn:E.
    + constructor; [by constructor|]. by constructor.
    + constructor; [done|].
      assert (String.leb y x = true) as Hyx.
      { destruct (String.leb_total x y) as [H|H]; [congruence|done]. }
      destruct l as [|z l]; simpl.
      * by constructor.
      * destruct (String.leb x z); constructor; [done|].
        by inversion Hhd.
Qed.

Lemma sort_ascending l : ascending (Loader.sort l).
Proof.
  unfold Loader.sort. induction l as [|x l IH]; simpl; [constructor|].
  by apply sortedInsert_ascending.
Qed.

(** X19. The merged list of [fetchDomains] holds exactly the normalized
    forms of the source entries that are valid domains, each once. *)
Theorem merged_exact srcs :
  (forall x,
     x ∈ Loader.merged srcs <->
     exists d, d ∈ concat srcs /\ Loader.normalizeDomain d = x
               /\ Loader.isValidDomain x = true) /\
  NoDup (Loader.merged srcs).
Proof.
  unfold Loader.merged. split.
  - intros x. rewrite sort_perm, foldl_mergeInto_elem.
    split; [intros [H|H]; [by apply elem_of_nil in H|done]|by right].
  - rewrite sort_perm. apply foldl_mergeInto_NoDup. constructor.
Qed.

(** X20. The merged list of [fetchDomains] is in ascending order, and all
    of its entries are in canonical lowercase form. *)
Theorem merged_sorted_canonical srcs :
  ascending (Loader.merged srcs) /\ Forall canonical (Loader.merged srcs).
Proof. split; [apply sort_ascending|apply canonical_merged]. Qed.

(** X21. [loadDomainsFromFile] answers from the first candidate file that
    holds a nonempty array, lowercasing and trimming its entries and
    dropping the blank ones; it answers null exactly when no candidate
    holds a nonempty array. *)
Theorem loadDomainsFromFile_first files :
  (Loader.loadDomainsFromFile files = None <->
   Forall (fun f => f = None \/ f = Some []) files) /\
  (forall skipped d ds rest,
     Forall (fun f => f = None \/ f = Some []) skipped ->
     Loader.loadDomainsFromFile (skipped ++ Some (d :: ds) :: rest)
     = Some (List.filter JS.truthy
               (map (fun x => JS.trim (JS.toLowerCase x)) (d :: ds)))) /\
  (forall result,
     Loader.loadDomainsFromFile files = Some result ->
     Forall (fun x => x <> EmptyString /\ canonical x) result).
Proof.
  split; [|split].
  - induction files as [|[[|d ds]|] files IH]; simpl.
    + split; [constructor|done].
    + rewrite IH. split; [intros H; constructor; [by right|done]|].
      by inversion 1.
    + split; [done|]. inversion 1 as [|? ? [?|?] ?]; done.
    + rewrite IH. split; [intros H; constructor; [by left|done]|].
      by inversion 1.
  - intros skipped d ds rest Hs.
    induction Hs as [|f skipped [-> | ->] _ IH]; simpl; done.
  - intros result Hr.
    pose proof (canonical_loadDomainsFromFile files result Hr) as Hc.
    assert (Forall (fun x => x <> EmptyString) result) as Hne.
    { clear Hc. induction files as [|[[|d ds]|] files IH]; simpl in Hr;
        try done; try by apply IH.
      injection Hr as <-. unfold Loader.cleanFileDomains.
      apply Forall_forall. intros x Hx%list_elem_of_In%filter_In.
      destruct Hx as [_ Hx]. by destruct x. }
    rewrite Forall_forall in *. intros x Hx. split; [by apply Hne|by apply Hc].
Qed.

End MergeMore.

Lemma loadDomainsFromFile_first_witness :
  Loader.loadDomainsFromFile
    ([None; Some []] ++ Some [" A.com "; "  "; "b.ORG"] :: [Some ["c.net"]])
  = Some (List.filter JS.truthy
            (map (fun x => JS.trim (JS.toLowerCase x))
                 [" A.com "; "  "; "b.ORG"])).
Proof.
  apply (proj1 (proj2 (loadDomainsFromFile_first []))).
  repeat constructor; tauto.
Defined.

(** ** Valid domains *)

Section ValidDomain.
Import Regex.

Lemma allChars_impl (p q : ascii -> bool) s :
  (forall c, p c = true -> q c = true) ->
  allChars p s = true -> allChars q s = true.
Proof.
  intros Hpq. induction s as [|c s IH]; simpl; [done|].
  intros [Hc Hs]%andb_true_iff. by rewrite (Hpq c Hc), (IH Hs).
Qed.

Lemma Matches_allChars p r s :
  classesWithin p r -> Matches r s -> allChars p s = true.
Proof.
  intros Hp Hm. induction Hm as
    [|q c Hq|r1 r2 s1 s2 _ IH1 _ IH2|r1 r2 s _ IH|r1 r2 s _ IH
     |r|r s1 s2 _ IH1 _ IH2]; simpl in Hp.
  - done.
  - simpl. by rewrite (Hp c Hq).
  - destruct Hp. by rewrite allChars_app, IH1, IH2.
  - destruct Hp. by apply IH.
  - destruct Hp. by apply IH.
  - done.
  - by rewrite allChars_app, IH1, IH2.
Qed.

Lemma classesWithin_UpTo p n r : classesWithin p r -> classesWithin p (UpTo n r).
Proof. intros H. induction n as [|n IH]; simpl; [done|]. tauto. Qed.

Lemma alpha_hostChar c : Loader.alpha c = true -> hostChar c = true.
Proof.
  intros H. unfold hostChar, Loader.alnumDash, Loader.alnum. by rewrite H.
Qed.

Lemma alnum_hostChar c : Loader.alnum c = true -> hostChar c = true.
Proof. intros H. unfold hostChar, Loader.alnumDash. by rewrite H. Qed.

Lemma classesWithin_domainRegex : classesWithin hostChar Loader.domainRegex.
Proof.
  assert (classesWithin hostChar Loader.labelRegex) as Hlabel.
  { unfold Loader.labelRegex. cbn [classesWithin Opt].
    split; [exact alnum_hostChar|]. split; [done|].
    split; [|exact alnum_hostChar].
    apply classesWithin_UpTo. cbn [classesWithin].
    intros c H. unfold hostChar. by rewrite H. }
  unfold Loader.domainRegex, Chr. cbn [classesWithin].
  assert (forall c, Ascii.eqb "." c = true -> hostChar c = true) as Hdot.
  { intros c H%Ascii.eqb_eq. by subst c. }
  split; [exact Hlabel|]. split; [split; [exact Hdot|exact Hlabel]|].
  split; [exact Hdot|]. split; [exact alpha_hostChar|].
  split; exact alpha_hostChar.
Qed.

(** The shape of a string matched by [domainRegex]. *)
Lemma Matches_domainRegex_shape s :
  Matches Loader.domainRegex s ->
  exists c0 rest tld,
    s = String c0 rest +:+ String "." tld /\
    Loader.alnum c0 = true /\
    2 <= String.length tld /\ allChars Loader.alpha tld = true.
Proof.
  unfold Loader.domainRegex, Loader.labelRegex.
  intros (s1 & t1 & -> & (h & s1' & -> & (c0 & -> & Hc0)%Matches_cls_inv & _)
            %Matches_cat_inv &
          (s2 & t2 & -> & _ &
           (dot & t3 & -> & ->%Matches_chr &
            (a1 & t4 & -> & (c1 & -> & Hc1)%Matches_cls_inv &
             (a2 & t5 & -> & (c2 & -> & Hc2)%Matches_cls_inv &
              Hrest%Matches_star_cls)%Matches_cat_inv)%Matches_cat_inv)
           %Matches_cat_inv)%Matches_cat_inv)%Matches_cat_inv.
  exists c0, (s1' +:+ s2), (String c1 (String c2 t5)).
  repeat (rewrite append_cons || rewrite append_nil_l || rewrite append_assoc).
  split; [done|]. split; [done|]. split; [simpl; lia|].
  simpl. by rewrite Hc1, Hc2, Hrest.
Qed.

Lemma includes_char_absent p c s :
  allChars p s = true -> p c = false ->
  JS.includes s (String c EmptyString) = false.
Proof.
  intros Hs Hc. induction s as [|a s IH]; simpl; [done|].
  simpl in Hs. apply andb_true_iff in Hs as [Ha Hs].
  rewrite (IH Hs). destruct (ascii_dec c a) as [->|]; [congruence|done].
Qed.

Lemma endsWith_append_nonempty a b p0 :
  b <> EmptyString ->
  JS.endsWith (a +:+ b) (String p0 EmptyString)
  = JS.endsWith b (String p0 EmptyString).
Proof.
  intros Hb. induction a as [|c a IH]; [done|].
  rewrite append_cons. cbn [JS.endsWith]. rewrite IH.
  replace (String.eqb (String c (a +:+ b)) (String p0 EmptyString)) with false;
    [done|].
  symmetry. simpl. destruct (Ascii.eqb c p0); [|done].
  destruct a; [by destruct b|done].
Qed.

Lemma endsWith_char_absent p c s :
  allChars p s = true -> p c = false ->
  JS.endsWith s (String c EmptyString) = false.
Proof.
  intros Hs Hc. induction s as [|a s IH]; simpl; [done|].
  simpl in Hs. apply andb_true_iff in Hs as [Ha Hs]. rewrite (IH Hs).
  destruct (Ascii.eqb a c) eqn:E; [|done].
  apply Ascii.eqb_eq in E. congruence.
Qed.

Lemma startsWith_cons_ne c s p0 :
  p0 <> c -> JS.startsWith (String c s) (String p0 EmptyString) = false.
Proof.
  intros Hne. unfold JS.startsWith. cbn [String.prefix].
  by destruct (ascii_dec p0 c).
Qed.

Lemma isValidDomain_test d :
  Loader.isValidDomain d = test Loader.domainRegex d.
Proof.
  unfold Loader.isValidDomain.
  destruct (test Loader.domainRegex d) eqn:Ht.
  2:{ repeat (destruct (_ || _) || destruct (negb _) || destruct (JS.includes _ _));
        reflexivity. }
  apply test_spec in Ht.
  pose proof (Matches_allChars _ _ _ classesWithin_domainRegex Ht) as Hhost.
  destruct (Matches_domainRegex_shape d Ht) as (c0 & rest & tld & -> & Hc0 & Hlen & Htld).
  assert (tld <> EmptyString) as Hne by (destruct tld; [simpl in Hlen; lia|done]).
  assert (JS.includes (String c0 rest +:+ String "." tld) " " = false) as ->.
  { by apply (includes_char_absent hostChar). }
  rewrite includes_char_app.
  assert (JS.endsWith (String c0 rest +:+ String "." tld) "." = false) as ->.
  { rewrite (endsWith_append_nonempty _ (String "." tld)) by done.
    cbn [JS.endsWith]. rewrite (endsWith_char_absent Loader.alpha) by done.
    simpl. by destruct tld. }
  assert (JS.startsWith (String c0 rest +:+ String "." tld) "." = false) as ->.
  { rewrite append_cons. apply startsWith_cons_ne.
    intros <-. vm_compute in Hc0. discriminate Hc0. }
  assert ((String.length (String c0 rest +:+ String "." tld) <? 3) = false)
    as ->.
  { apply Nat.ltb_ge. rewrite length_append. simpl. lia. }
  rewrite append_cons. reflexivity.
Qed.

(** X22. The four preliminary tests of [isValidDomain] never decide: it
    accepts exactly what its regular expression accepts.  An accepted
    string is made of letters, digits, hyphens and dots only, starts with
    a letter or digit, and ends with a dot followed by at least two
    letters. *)
Theorem isValidDomain_spec d :
  Loader.isValidDomain d = test Loader.domainRegex d /\
  (Loader.isValidDomain d = true ->
   allChars hostChar d = true /\
   exists c0 rest tld,
     d = String c0 rest +:+ String "." tld /\
     Loader.alnum c0 = true /\
     2 <= String.length tld /\ allChars Loader.alpha tld = true).
Proof.
  split; [apply isValidDomain_test|].
  rewrite isValidDomain_test. intros Ht%test_spec. split.
  - exact (Matches_allChars _ _ _ classesWithin_domainRegex Ht).
  - by apply Matches_domainRegex_shape.
Qed.

Lemma isValidDomain_spec_witness :
  allChars hostChar "mail.0-180.com" = true /\
  exists c0 rest tld,
    "mail.0-180.com" = String c0 rest +:+ String "." tld /\
    Loader.alnum c0 = true /\
    2 <= String.length tld /\ allChars Loader.alpha tld = true.
Proof.
  apply (proj2 (isValidDomain_spec "mail.0-180.com")).
  vm_compute. reflexivity.
Defined.

End ValidDomain.

(** ** From a source entry to a verdict *)

Section EndToEnd.
Import Guard.

Lemma prefix_allChars q p : forall s,
  String.prefix p s = true -> allChars q s = true -> allChars q p = true.
Proof.
  induction p as [|a p IH]; intros s; [done|].
  destruct s as [|b s]; cbn [String.prefix]; [done|].
  destruct (ascii_dec a b) as [->|]; [|done].
  simpl. intros Hp [Hb Hs]%andb_true_iff. by rewrite Hb, (IH s Hp Hs).
Qed.

Lemma hostChar_noSpace c : hostChar c = true -> negb (JS.isSpace c) = true.
Proof.
  destruct c as [[] [] [] [] [] [] [] []]; vm_compute; congruence.
Qed.

Lemma firstPiece_absent sep s :
  allChars (fun c => negb (Ascii.eqb c sep)) s = true ->
  Loader.firstPiece sep s = s.
Proof. intros H. unfold Loader.firstPiece. by rewrite split_no_sep. Qed.

Lemma hostChar_not sep c :
  hostChar sep = false -> hostChar c = true -> negb (Ascii.eqb c sep) = true.
Proof.
  intros Hsep Hc. apply negb_true_iff. destruct (Ascii.eqb c sep) eqn:E; [|done].
  apply Ascii.eqb_eq in E. congruence.
Qed.

Lemma normalizeDomain_clean d :
  allChars hostChar d = true -> canonical d ->
  JS.startsWith d "www." = false ->
  Loader.normalizeDomain d = d.
Proof.
  intros Hhost Hcanon Hwww. unfold Loader.normalizeDomain.
  rewrite Hcanon.
  rewrite (trim_noSpace d (allChars_impl _ _ d hostChar_noSpace Hhost)).
  assert (Loader.stripScheme d = d) as ->.
  { unfold Loader.stripScheme, JS.startsWith.
    destruct (String.prefix "https://" d) eqn:E1.
    { pose proof (prefix_allChars hostChar _ _ E1 Hhost) as H.
      vm_compute in H. discriminate H. }
    destruct (String.prefix "http://" d) eqn:E2; [|done].
    pose proof (prefix_allChars hostChar _ _ E2 Hhost) as H.
    vm_compute in H. discriminate H. }
  unfold Loader.stripWww. rewrite Hwww.
  assert (forall sep, hostChar sep = false ->
            allChars (fun c => negb (Ascii.eqb c sep)) d = true) as Hsep.
  { intros sep Hs. apply (allChars_impl hostChar _ d); [|done].
    intros c. by apply hostChar_not. }
  rewrite (firstPiece_absent "/" d) by (apply Hsep; reflexivity).
  rewrite (firstPiece_absent "?" d) by (apply Hsep; reflexivity).
  by rewrite (firstPiece_absent "#" d) by (apply Hsep; reflexivity).
Qed.

(** X23. A valid domain in canonical lowercase form that does not start
    with [www.] is left unchanged by [normalizeDomain]. *)
Theorem normalizeDomain_fixed d :
  Loader.isValidDomain d = true -> canonical d ->
  JS.startsWith d "www." = false ->
  Loader.normalizeDomain d = d.
Proof.
  intros Hv Hc Hw. apply normalizeDomain_clean; try done.
  rewrite isValidDomain_test in Hv. apply test_spec in Hv.
  exact (Matches_allChars _ _ _ classesWithin_domainRegex Hv).
Qed.

Lemma normalizeDomain_fixed_witness :
  Loader.normalizeDomain "mail.0-180.com" = "mail.0-180.com".
Proof.
  apply normalizeDomain_fixed; vm_compute; reflexivity.
Defined.

Lemma merged_elem srcs x :
  x ∈ Loader.merged srcs <->
  exists d, d ∈ concat srcs /\ Loader.normalizeDomain d = x
            /\ Loader.isValidDomain x = true.
Proof.
  unfold Loader.merged. rewrite sort_perm, foldl_mergeInto_elem.
  split; [intros [H|H]; [by apply elem_of_nil in H|done]|by right].
Qed.

(** X24. With no local file, every entry of a remote source that is a
    valid domain in canonical form (not starting with [www.]) is flagged
    after loading: [isTempEmailAsync] called on a fresh module returns true
    for any address [local@sub.entry] and [local@entry]. *)
Theorem listed_domain_flagged env entry l sub :
  Loader.loadDomainsFromFile (Loader.localFiles env) = None ->
  entry ∈ concat (Loader.sources env) ->
  Loader.isValidDomain entry = true -> canonical entry ->
  JS.startsWith entry "www." = false ->
  allChars (fun a => negb (Ascii.eqb a "@")) l = true ->
  allChars hostChar sub = true ->
  fst (isTempEmailAsync env (l +:+ String "@" entry) initial) = Return true /\
  fst (isTempEmailAsync env (l +:+ String "@" (sub +:+ String "." entry)) initial)
  = Return true.
Proof.
  intros Hfile Hin Hv Hc Hw Hl Hsub.
  assert (allChars hostChar entry = true) as Hhost.
  { pose proof Hv as Hv'. rewrite isValidDomain_test in Hv'.
    apply test_spec in Hv'.
    exact (Matches_allChars _ _ _ classesWithin_domainRegex Hv'). }
  assert (entry ∈ Loader.supplied env) as Hsup.
  { rewrite (supplied_without_file env Hfile). apply merged_elem.
    exists entry. split; [done|]. split; [by apply normalizeDomain_clean|done]. }
  assert (Loader.supplied env <> []) as Hne.
  { intros E. rewrite E in Hsup. by apply elem_of_nil in Hsup. }
  destruct (ensureDomainsLoaded_initial env Hne) as (Hens & Ht & _).
  assert (entry <> EmptyString) as Hentry.
  { intros ->. vm_compute in Hv. discriminate Hv. }
  unfold isTempEmailAsync. rewrite Hens.
  rewrite !(isTempEmail_reachable_parts _ _ _ _ Ht Hl).
  assert (forall d, allChars hostChar d = true ->
            JS.trim (JS.toLowerCase d) = JS.toLowerCase d) as Htrim.
  { intros d Hd. apply trim_noSpace, allChars_noSpace_lower.
    by apply (allChars_impl hostChar); [apply hostChar_noSpace|]. }
  split.
  - rewrite (Htrim entry Hhost), Hc, (hasDomain_inserted _ _ Hsup).
    by destruct entry.
  - rewrite Htrim.
    2:{ rewrite allChars_app. simpl. by rewrite Hsub, Hhost. }
    rewrite hasDomain_lower.
    assert (DomainTrie.hasDomain
              (DomainTrie.fromDomains (Loader.supplied env))
              (sub +:+ String "." entry) = true) as ->.
    { apply hasDomain_labels. exists entry. split; [done|].
      exists (labels sub), []. by rewrite labels_prepend, app_nil_r. }
    rewrite toLowerCase_app. by destruct (JS.toLowerCase sub).
Qed.

Lemma listed_domain_flagged_witness :
  fst (isTempEmailAsync Run.testEnv ("user" +:+ String "@" "0-180.com") initial)
  = Return true /\
  fst (isTempEmailAsync Run.testEnv
         ("user" +:+ String "@" ("mx1.mail" +:+ String "." "0-180.com")) initial)
  = Return true.
Proof.
  apply listed_domain_flagged; try (vm_compute; reflexivity).
  apply list_elem_of_In. simpl. tauto.
Defined.

End EndToEnd.

(** ** The DNS detector *)

Section DnsMore.
Import DnsDetector.

Lemma getMXRecords_entry w domain (mxCache : Cache) :
  exists e,
    snd (getMXRecords w domain mxCache) !! domain = Some e /\
    mx e = fst (getMXRecords w domain mxCache).
Proof.
  unfold getMXRecords.
  assert (exists e,
            snd (match resolveMx w domain with
                 | Some exchanges =>
                     (Some (map JS.toLowerCase exchanges),
                      <[domain := {| mx := Some (map JS.toLowerCase exchanges);
                                     timestamp := settledAt w |}]> mxCache)
                 | None =>
                     (None, <[domain := {| mx := None;
                                           timestamp := settledAt w |}]> mxCache)
                 end) !! domain = Some e /\
            mx e = fst (match resolveMx w domain with
                 | Some exchanges =>
                     (Some (map JS.toLowerCase exchanges),
                      <[domain := {| mx := Some (map JS.toLowerCase exchanges);
                                     timestamp := settledAt w |}]> mxCache)
                 | None =>
                     (None, <[domain := {| mx := None;
                                           timestamp := settledAt w |}]> mxCache)
                 end)) as Hlookup.
  { destruct (resolveMx w domain); cbn [fst snd]; rewrite lookup_insert_eq;
      eexists; split; reflexivity. }
  destruct (mxCache !! domain) as [cached|] eqn:Hc; [|exact Hlookup].
  destruct (now w - timestamp cached <? CACHE_TTL)%Z; [|exact Hlookup].
  exists cached. by split.
Qed.

Lemma getMXRecords_hit w domain (mxCache : Cache) e :
  mxCache !! domain = Some e ->
  (now w - timestamp e < CACHE_TTL)%Z ->
  getMXRecords w domain mxCache = (mx e, mxCache).
Proof.
  intros He Hfresh. unfold getMXRecords. rewrite He.
  apply Z.ltb_lt in Hfresh. by rewrite Hfresh.
Qed.

(** X25. A repeated DNS check is answered from the cache: after
    [isDisposableByDNS] has run for a domain, a second run for it, made
    while the cached entry is younger than 24 hours, returns the same
    answer and leaves the cache unchanged, whatever DNS would now say. *)
Theorem isDisposableByDNS_cached w w' domain (mxCache : Cache) :
  let first := isDisposableByDNS w domain mxCache in
  (forall e, snd first !! domain = Some e ->
             (now w' - timestamp e < CACHE_TTL)%Z) ->
  isDisposableByDNS w' domain (snd first) = first.
Proof.
  cbv zeta. unfold isDisposableByDNS.
  destruct (negb (JS.truthy domain) || negb (JS.includes domain ".")) eqn:Hg.
  { intros _. cbn [snd]. reflexivity. }
  destruct (getMXRecords_entry w domain mxCache) as (e & He & Hmx).
  destruct (getMXRecords w domain mxCache) as [m c1] eqn:Hfirst.
  cbn [fst snd] in He, Hmx. subst m.
  assert (forall X : bool * Cache, snd X = c1 ->
            (forall e0, snd X !! domain = Some e0 ->
                        (now w' - timestamp e0 < CACHE_TTL)%Z) ->
            getMXRecords w' domain c1 = (mx e, c1)) as Hagain.
  { intros X HX Hfresh. rewrite HX in Hfresh.
    by apply getMXRecords_hit, Hfresh. }
  destruct (mx e) as [[|h hs]|] eqn:Hm; cbn [snd]; intros Hfresh;
    rewrite (Hagain (false, c1) eq_refl Hfresh); reflexivity.
Qed.

Lemma isDisposableByDNS_cached_witness :
  let w := {| resolveMx := fun _ => Some ["MX1.Mailinator.COM"];
              now := 1000; settledAt := 1200 |} in
  let w' := {| resolveMx := fun _ => None;
               now := 1200 + 1000; settledAt := 1200 + 1500 |} in
  isDisposableByDNS w' "example.org"
    (snd (isDisposableByDNS w "example.org" ∅))
  = isDisposableByDNS w "example.org" ∅.
Proof.
  cbv zeta. apply isDisposableByDNS_cached.
  intros e He. vm_compute in He. injection He as <-. reflexivity.
Defined.

(** X26. [getMXRecords] records what it returns: afterwards [getCachedMX]
    for that domain gives the returned hosts, and the entries of all other
    domains are untouched. *)
Theorem getMXRecords_recorded w domain (mxCache : Cache) :
  getCachedMX domain (snd (getMXRecords w domain mxCache))
  = fst (getMXRecords w domain mxCache) /\
  (forall other,
     other <> domain ->
     snd (getMXRecords w domain mxCache) !! other = mxCache !! other).
Proof.
  split.
  - destruct (getMXRecords_entry w domain mxCache) as (e & He & Hmx).
    unfold getCachedMX. by rewrite He.
  - intros other Hne. unfold getMXRecords.
    destruct (mxCache !! domain) as [cached|];
      [destruct (now w - timestamp cached <? CACHE_TTL)%Z; [done|]|];
      destruct (resolveMx w domain); cbn [snd];
      by rewrite lookup_insert_ne.
Qed.

(** X27. With no usable cache entry, a domain is reported disposable
    exactly when it is nonempty, contains a dot, DNS answers with MX
    records, and one of the exchange names, lowercased, contains one of
    the known patterns as a substring; a failed or empty answer gives
    false. *)
Theorem isDisposableByDNS_spec w domain (mxCache : Cache) :
  mxCache !! domain = None ->
  fst (isDisposableByDNS w domain mxCache) = true <->
  domain <> EmptyString /\
  JS.includes domain "." = true /\
  exists exchanges,
    resolveMx w domain = Some exchanges /\
    exists pattern host,
      pattern ∈ DISPOSABLE_MX_PATTERNS /\ host ∈ exchanges /\
      JS.includes (JS.toLowerCase host) pattern = true.
Proof.
  intros Hmiss. unfold isDisposableByDNS, getMXRecords. rewrite Hmiss.
  assert (forall hosts,
            matchesDisposablePattern hosts = true <->
            exists pattern host,
              pattern ∈ DISPOSABLE_MX_PATTERNS /\ host ∈ hosts /\
              JS.includes host pattern = true) as Hmatch.
  { intros hosts. unfold matchesDisposablePattern. rewrite existsb_exists.
    split.
    - intros (p & Hp%list_elem_of_In & (h & Hh%list_elem_of_In & Hi)%existsb_exists).
      eauto.
    - intros (p & h & Hp%list_elem_of_In & Hh%list_elem_of_In & Hi).
      exists p. split; [done|]. apply existsb_exists. eauto. }
  destruct domain as [|c domain]; cbn [JS.truthy negb orb].
  { cbn [fst]. split; [done|]. by intros [? _]. }
  destruct (JS.includes (String c domain) ".") eqn:Hdot; cbn [negb fst].
  2:{ split; [done|]. by intros (_ & ? & _). }
  destruct (resolveMx w (String c domain)) as [exchanges|] eqn:Hres.
  2:{ cbn [fst]. split; [done|]. by intros (_ & _ & ? & ? & _). }
  assert (forall hosts (X Y : Cache),
            fst (match hosts with
                 | [] => (false, X)
                 | _ :: _ => (matchesDisposablePattern hosts, Y)
                 end) = matchesDisposablePattern hosts) as Hfst.
  { intros [|h hs] X Y; [|done].
    cbn [fst]. symmetry. unfold matchesDisposablePattern.
    apply not_true_is_false. rewrite existsb_exists.
    intros (p & _ & H). discriminate H. }
  cbn [fst snd]. rewrite Hfst, Hmatch. split.
  - intros (p & h & Hp & (h0 & -> & Hh0)%list_elem_of_fmap & Hi).
    split; [done|]. split; [done|]. exists exchanges. split; [done|]. eauto.
  - intros (_ & _ & ex & [= <-] & p & h & Hp & Hh & Hi).
    exists p, (JS.toLowerCase h). split; [done|]. split; [|done].
    apply list_elem_of_fmap. eauto.
Qed.

Lemma isDisposableByDNS_spec_witness :
  let w := {| resolveMx := fun _ => Some ["MX1.Mailinator.COM"];
              now := 1000; settledAt := 1200 |} in
  fst (isDisposableByDNS w "example.org" ∅) = true <->
  "example.org" <> EmptyString /\
  JS.includes "example.org" "." = true /\
  exists exchanges,
    resolveMx w "example.org" = Some exchanges /\
    exists pattern host,
      pattern ∈ DISPOSABLE_MX_PATTERNS /\ host ∈ exchanges /\
      JS.includes (JS.toLowerCase host) pattern = true.
Proof.
  cbv zeta. apply isDisposableByDNS_spec. apply lookup_empty.
Defined.

End DnsMore.

Lemma getMXRecords_recorded_witness :
  let w := {| DnsDetector.resolveMx := fun _ => Some ["MX.Example.NET"];
              DnsDetector.now := 10; DnsDetector.settledAt := 20 |} in
  snd (DnsDetector.getMXRecords w "a.org" ∅) !! "b.org"
  = (∅ : gmap string DnsDetector.CacheEntry) !! "b.org".
Proof.
  cbv zeta.
  apply (proj2 (getMXRecords_recorded
                  {| DnsDetector.resolveMx := fun _ => Some ["MX.Example.NET"];
                     DnsDetector.now := 10; DnsDetector.settledAt := 20 |}
                  "a.org" ∅)).
  discriminate.
Defined.

(** ** The module variables stay consistent *)

Section Consistency.
Import Guard.

(** X28. In every state the module can reach, the set, the trie and the
    domain array are absent together or present together; when present,
    the set and the trie are the ones built from the array, whose entries
    are in canonical lowercase form; and while they are absent the recency
    cache is empty. *)
Theorem structures_consistent calls :
  let st := Run.run calls in
  (TEMP_EMAIL_DOMAINS_SET st = None /\
   TEMP_EMAIL_DOMAINS_TRIE st = None /\
   TEMP_EMAIL_DOMAINS_ARRAY st = None /\
   DOMAIN_CACHE st = [] /\
   getTempEmailDomains st = []) \/
  (exists domains,
     TEMP_EMAIL_DOMAINS_ARRAY st = Some domains /\
     TEMP_EMAIL_DOMAINS_SET st = Some (list_to_set domains) /\
     TEMP_EMAIL_DOMAINS_TRIE st = Some (DomainTrie.fromDomains domains) /\
     getTempEmailDomains st = domains /\
     Forall canonical domains).
Proof.
  cbv zeta. destruct (run_invariant calls) as [_ Hb].
  pose proof (run_coherent calls) as Hc.
  unfold builtFrom in Hb. unfold cacheCoherent in Hc.
  unfold getTempEmailDomains.
  destruct (TEMP_EMAIL_DOMAINS_SET (Run.run calls)) as [s|];
    destruct (TEMP_EMAIL_DOMAINS_TRIE (Run.run calls)) as [t|];
    destruct (TEMP_EMAIL_DOMAINS_ARRAY (Run.run calls)) as [ds|];
    try done.
  - right. destruct Hb as (Hcanon & -> & ->). exists ds. done.
  - left. done.
Qed.

End Consistency.
